(** * Comparable discovery: a shallow embedding of the scoring engine

    The development follows [backend/agents/comparable_discovery_agent.py],
    [backend/models/property_models.py] and the table of
    [backend/database.py].

    Conventions of the embedding.
    - A Python [float] is an exact rational ([Q]); NaN, infinities and
      rounding are outside the model.  Equalities between computed scores are
      stated with [==] ([Qeq]).
    - A Python [int] is a [Z], a [str] is a [string] of 8-bit characters
      (case mapping acts on the ASCII letters), [Optional[T]] is [option T].
    - The only exception the deterministic scorers can raise is the
      [ZeroDivisionError] of a true division; it is modelled by [result].
      A division whose divisor the source has just tested against zero is
      written with the total [/] of [Q].
    - [async]/[await] is sequential here: there is a single task and every
      coroutine is awaited at once. *)

From Stdlib Require Import QArith Qminmax ZArith List String Ascii Bool.
From Stdlib Require Import Lia Lqa Sorting.Sorted Sorting.Permutation.
From Stdlib Require Import Qround.
Import ListNotations.

Open Scope Q_scope.

(* ===================================================================== *)
(** * The Python behaviours the source relies on *)
(* ===================================================================== *)

Module Py.

(** ** Exceptions *)

Inductive exception : Type :=
| ZeroDivisionError
| TypeError.

Inductive result (A : Type) : Type :=
| Ok (a : A)
| Raise (e : exception).
Arguments Ok {A} a.
Arguments Raise {A} e.

Definition bind {A B : Type} (r : result A) (k : A -> result B) : result B :=
  match r with
  | Ok a => k a
  | Raise e => Raise e
  end.

(** ** Comparisons on floats *)

Definition Qgtb (x y : Q) : bool := negb (Qle_bool x y).
Definition Qgeb (x y : Q) : bool := Qle_bool y x.

(** ** Truthiness: [None], [0], [0.0] and [""] are false *)

Definition truthy_float (x : option Q) : bool :=
  match x with
  | Some v => negb (Qeq_bool v 0)
  | None => false
  end.

Definition truthy_int (x : option Z) : bool :=
  match x with
  | Some v => negb (v =? 0)%Z
  | None => false
  end.

Definition truthy_str (s : string) : bool :=
  match s with
  | EmptyString => false
  | String _ _ => true
  end.

Definition truthy_opt_str (x : option string) : bool :=
  match x with
  | Some s => truthy_str s
  | None => false
  end.

(** [x or d] on an optional float. *)
Definition or_float (x : option Q) (d : Q) : Q :=
  match x with
  | Some v => if Qeq_bool v 0 then d else v
  | None => d
  end.

(** ** [str.upper], [str.lower], [in] on strings *)

Definition ascii_upper (c : ascii) : ascii :=
  let n := nat_of_ascii c in
  if ((97 <=? n) && (n <=? 122))%nat then ascii_of_nat (n - 32) else c.

Definition ascii_lower (c : ascii) : ascii :=
  let n := nat_of_ascii c in
  if ((65 <=? n) && (n <=? 90))%nat then ascii_of_nat (n + 32) else c.

Fixpoint str_map (f : ascii -> ascii) (s : string) : string :=
  match s with
  | EmptyString => EmptyString
  | String c s' => String (f c) (str_map f s')
  end.

Definition upper : string -> string := str_map ascii_upper.
Definition lower : string -> string := str_map ascii_lower.

(** [needle in hay]. *)
Fixpoint str_in (needle hay : string) : bool :=
  String.prefix needle hay ||
  match hay with
  | EmptyString => false
  | String _ hay' => str_in needle hay'
  end.

(** Membership in a set literal of strings. *)
Definition set_in (s : string) (codes : list string) : bool :=
  existsb (String.eqb s) codes.

(** ** True division *)

Definition truediv (a b : Q) : result Q :=
  if Qeq_bool b 0 then Raise ZeroDivisionError else Ok (a / b).

(** ** Lists: [range(0, stop, step)], slices, [sort(key=..., reverse=True)] *)

Definition range_step (stop step : nat) : list nat :=
  map (fun k => (k * step)%nat) (seq 0 ((stop + step - 1) / step)).

(** [l[i:j]] for [0 <= i <= j]. *)
Definition slice {A : Type} (l : list A) (i j : nat) : list A :=
  firstn (j - i) (skipn i l).

(** [l[:k]]; a negative [k] counts from the end. *)
Definition slice_to {A : Type} (l : list A) (k : Z) : list A :=
  if (0 <=? k)%Z then firstn (Z.to_nat k) l
  else firstn (List.length l - Z.to_nat (- k)) l.

(** The sort is stable, also with [reverse=True]: elements with equal keys
    keep their relative order. *)
Fixpoint insert_reverse {A : Type} (key : A -> Q) (x : A) (l : list A) : list A :=
  match l with
  | [] => [x]
  | y :: l' =>
      if Qle_bool (key y) (key x) then x :: y :: l'
      else y :: insert_reverse key x l'
  end.

Definition sort_reverse {A : Type} (key : A -> Q) (l : list A) : list A :=
  fold_right (insert_reverse key) [] l.

(** [a] may stand before [b] once the list is sorted on [key] with
    [reverse=True]. *)
Definition key_ge {A : Type} (key : A -> Q) (a b : A) : Prop := key b <= key a.

(** A [dict] with string keys, in insertion order. *)
Definition dict (V : Type) : Type := list (string * V).

Definition keys {V : Type} (d : dict V) : list string := map fst d.

Fixpoint get {V : Type} (d : dict V) (k : string) : option V :=
  match d with
  | [] => None
  | (k', v) :: d' => if String.eqb k k' then Some v else get d' k
  end.

End Py.

Import Py.

Declare Scope py_scope.
Notation "x <- e ;; k" := (bind e (fun x => k))
  (at level 61, e at next level, right associativity) : py_scope.
Notation "' pat <- e ;; k" := (bind e (fun x => match x with pat => k end))
  (at level 61, pat pattern, e at next level, right associativity) : py_scope.
Open Scope py_scope.

(* ===================================================================== *)
(** * models/property_models.py *)
(* ===================================================================== *)

Module Models.

(** [PropertyResponse].  A [datetime] is kept as a POSIX time stamp. *)
Record PropertyResponse : Type := {
  id : string;
  county_id : string;
  address : string;
  city : string;
  state : string;
  zip_code : option string;
  property_type : option string;
  zoning_code : option string;
  building_area : option Q;
  lot_area : option Q;
  year_built : option Z;
  assessed_value : option Q;
  market_value : option Q;
  sale_price : option Q;
  sale_date : option Z;
  latitude : option Q;
  longitude : option Q;
  data_source : string;
  last_updated : Z;
  quality_score : option Q;
  is_verified : bool;
  outlier_flags : option (list string)
}.

(** [ComparableProperty]; the field [property] of the source is [property_]. *)
Record ComparableProperty : Type := {
  property_ : PropertyResponse;
  similarity_score : Q;
  distance_miles : option Q;
  similarity_factors : dict Q;
  confidence_score : Q
}.

Record SimilarityFactors : Type := {
  sale_price_weight : Q;
  size_weight : Q;
  value_weight : Q;
  location_weight : Q;
  age_weight : Q;
  zoning_weight : Q;
  max_distance_miles : Q;
  size_tolerance_percent : Q;
  age_tolerance_years : Z;
  value_tolerance_percent : Q
}.

(** [SimilarityFactors()]: every field at its declared default. *)
Definition SimilarityFactors_default : SimilarityFactors := {|
  sale_price_weight := 0.35;
  size_weight := 0.25;
  value_weight := 0.20;
  location_weight := 0.10;
  age_weight := 0.05;
  zoning_weight := 0.05;
  max_distance_miles := 10.0;
  size_tolerance_percent := 0.5;
  age_tolerance_years := 10;
  value_tolerance_percent := 0.3
|}.

End Models.

Import Models.

(* ===================================================================== *)
(** * agents/comparable_discovery_agent.py *)
(* ===================================================================== *)

Module Agent.

(** The state of an [IntelligentComparableDiscoveryAgent]:
    [self.similarity_factors], here [factors], and the key of its OpenAI
    client, [self.openai_client.api_key]. *)
Record t : Type := {
  factors : SimilarityFactors;
  api_key : string
}.

(** [__init__], given the value of the environment variable
    [OPENAI_API_KEY] (the empty string when it is unset). *)
Definition init (openai_api_key : string) : t :=
  {| factors := SimilarityFactors_default; api_key := openai_api_key |}.

(** ** The factor scorers *)

Definition calculate_location_similarity
    (target candidate : PropertyResponse) : Q :=
  if String.eqb (lower (city target)) (lower (city candidate)) then 1.0
  else if String.eqb (county_id target) (county_id candidate) then 0.8
  else 0.3.

Definition calculate_size_similarity
    (target candidate : PropertyResponse) : Q :=
  match building_area target, building_area candidate with
  | Some ta, Some ca =>
      if negb (truthy_float (Some ta)) || negb (truthy_float (Some ca)) then 0.0
      else
        let larger := Qmax ta ca in
        let smaller := Qmin ta ca in
        if Qeq_bool larger 0 then 0.0
        else
          let ratio := smaller / larger in
          if Qgeb ratio 0.5 then ratio else ratio * 0.5
  | _, _ => 0.0
  end.

Definition calculate_age_similarity (self : t)
    (target candidate : PropertyResponse) : result Q :=
  match year_built target, year_built candidate with
  | Some ty, Some cy =>
      if negb (truthy_int (Some ty)) || negb (truthy_int (Some cy)) then Ok 0.5
      else
        let age_diff := Z.abs (ty - cy) in
        let tolerance := age_tolerance_years (factors self) in
        if (age_diff <=? tolerance)%Z then
          q <- truediv (inject_Z age_diff) (inject_Z tolerance) ;;
          Ok (1.0 - q * 0.5)
        else
          q <- truediv (inject_Z (age_diff - tolerance)) (inject_Z (tolerance * 2)) ;;
          Ok (Qmax 0.0 (0.5 - q))
  | _, _ => Ok 0.5
  end.

Definition industrial_codes : list string :=
  ["M1"; "M2"; "M3"; "I-1"; "I-2"; "I-3"; "I1"; "I2"; "I3"; "INDUSTRIAL"]%string.

Definition calculate_zoning_similarity
    (target candidate : PropertyResponse) : Q :=
  match zoning_code target, zoning_code candidate with
  | Some tz, Some cz =>
      if negb (truthy_str tz) || negb (truthy_str cz) then 0.5
      else
        let target_zoning := upper tz in
        let candidate_zoning := upper cz in
        if String.eqb target_zoning candidate_zoning then 1.0
        else if set_in target_zoning industrial_codes
                && set_in candidate_zoning industrial_codes then 0.8
        else if str_in "INDUSTRIAL" target_zoning
                && str_in "INDUSTRIAL" candidate_zoning then 0.7
        else if str_in "MANUFACTURING" target_zoning
                && str_in "MANUFACTURING" candidate_zoning then 0.7
        else if str_in "WAREHOUSE" target_zoning
                && str_in "WAREHOUSE" candidate_zoning then 0.7
        else 0.3
  | _, _ => 0.5
  end.

Definition calculate_value_similarity (self : t)
    (target candidate : PropertyResponse) : Q :=
  match assessed_value target, assessed_value candidate with
  | Some tv, Some cv =>
      if negb (truthy_float (Some tv)) || negb (truthy_float (Some cv)) then 0.5
      else
        let larger := Qmax tv cv in
        let smaller := Qmin tv cv in
        if Qeq_bool larger 0 then 0.0
        else
          let ratio := smaller / larger in
          let tolerance := value_tolerance_percent (factors self) in
          if Qgeb ratio (1 - tolerance) then 1.0 else Qmax 0.0 ratio
  | _, _ => 0.5
  end.

Definition calculate_sale_price_similarity
    (target candidate : PropertyResponse) : Q :=
  match sale_price target, sale_price candidate with
  | Some tp, Some cp =>
      if negb (truthy_float (Some tp)) || negb (truthy_float (Some cp)) then 0.5
      else
        let larger := Qmax tp cp in
        let smaller := Qmin tp cp in
        if Qeq_bool larger 0 then 0.0
        else
          let ratio := smaller / larger in
          let tolerance := 0.3 in
          if Qgeb ratio (1 - tolerance) then 1.0 else Qmax 0.0 ratio
  | _, _ => 0.5
  end.

(** ** Completeness and confidence *)

Definition calculate_data_completeness (prop : PropertyResponse) : Q :=
  let essential_fields :=
    [ truthy_str (address prop); truthy_str (city prop);
      truthy_str (state prop); truthy_float (building_area prop);
      truthy_opt_str (zoning_code prop); truthy_str (county_id prop) ] in
  let optional_fields :=
    [ truthy_int (year_built prop); truthy_float (assessed_value prop);
      truthy_float (latitude prop); truthy_float (longitude prop);
      truthy_float (lot_area prop) ] in
  let count := fun (fields : list bool) '(total_fields, completed_fields) =>
    fold_left
      (fun '(total, completed) (field : bool) =>
         ((total + 1)%Z, if field then (completed + 1)%Z else completed))
      fields (total_fields, completed_fields) in
  let '(total_fields, completed_fields) :=
    count optional_fields (count essential_fields (0%Z, 0%Z)) in
  if (total_fields >? 0)%Z
  then inject_Z completed_fields / inject_Z total_fields
  else 0.0.

Definition calculate_confidence_score
    (target candidate : PropertyResponse) : Q :=
  let target_completeness := calculate_data_completeness target in
  let candidate_completeness := calculate_data_completeness candidate in
  let avg_completeness := (target_completeness + candidate_completeness) / 2 in
  let target_quality := or_float (quality_score target) 0.5 in
  let candidate_quality := or_float (quality_score candidate) 0.5 in
  let avg_quality := (target_quality + candidate_quality) / 2 in
  let confidence := (avg_completeness * 0.6) + (avg_quality * 0.4) in
  Qmin 1.0 confidence.

(** ** The replies of the language-model service *)

(** One element of the parsed JSON array.  [ScoreData] is an element that
    is processed without an exception: an object with its [id] ([None] when
    absent or not a string), its [similarity_score] and its
    [confidence_score].  [IllTyped] is an element whose processing raises:
    one that is not an object, or an object that names a candidate of the
    batch and whose score or confidence is not a number. *)
Inductive score_data : Type :=
| ScoreData (candidate_id : option string) (similarity confidence : Q)
| IllTyped.

(** What one [chat.completions.create] call followed by [json.loads] gives:
    the call raises (network error, non-2xx, time-out, no content), or the
    content is not JSON ([JSONDecodeError]), or it parses. *)
Inductive completion : Type :=
| CallRaises
| NotJSON
| Parsed (ai_scores : list score_data).

Definition failed (c : completion) : bool :=
  match c with
  | CallRaises | NotJSON => true
  | Parsed _ => false
  end.

Section Collaborators.

(** Lines 689-704 of the source: the haversine distance in miles of two
    coordinate pairs, computed with [math.sin], [math.cos], [math.asin] and
    [math.sqrt]. *)
Variable great_circle_miles : Q -> Q -> Q -> Q -> Q.

(** The parcel store: the candidates [get_candidate_properties] reads. *)
Variable get_candidate_properties : PropertyResponse -> list PropertyResponse.

(** The language-model service: the completion of the [k]-th batch. *)
Variable chat_completion : nat -> completion.

Definition calculate_distance (target candidate : PropertyResponse) : Q :=
  let estimate :=
    if String.eqb (lower (city target)) (lower (city candidate)) then 5.0
    else if String.eqb (county_id target) (county_id candidate) then 25.0
    else 100.0 in
  match latitude target, longitude target,
        latitude candidate, longitude candidate with
  | Some lat1, Some lon1, Some lat2, Some lon2 =>
      if negb (truthy_float (Some lat1) && truthy_float (Some lon1)
               && truthy_float (Some lat2) && truthy_float (Some lon2))
      then estimate
      else great_circle_miles lat1 lon1 lat2 lon2
  | _, _, _, _ => estimate
  end.

Definition calculate_detailed_similarity_factors (self : t)
    (target candidate : PropertyResponse) : result (dict Q) :=
  let location_score := calculate_location_similarity target candidate in
  let size_score := calculate_size_similarity target candidate in
  age_score <- calculate_age_similarity self target candidate ;;
  let zoning_score := calculate_zoning_similarity target candidate in
  let value_score := calculate_value_similarity self target candidate in
  Ok [ ("location", location_score); ("size", size_score);
       ("age", age_score); ("zoning", zoning_score);
       ("value", value_score) ]%string.

Definition calculate_similarity (self : t)
    (target_property candidate : PropertyResponse) : result (Q * dict Q * Q) :=
  let location_score := calculate_location_similarity target_property candidate in
  let size_score := calculate_size_similarity target_property candidate in
  age_score <- calculate_age_similarity self target_property candidate ;;
  let zoning_score := calculate_zoning_similarity target_property candidate in
  let value_score := calculate_value_similarity self target_property candidate in
  let sale_price_score := calculate_sale_price_similarity target_property candidate in
  let f := factors self in
  let similarity_score :=
    location_score * location_weight f +
    size_score * size_weight f +
    age_score * age_weight f +
    zoning_score * zoning_weight f +
    value_score * value_weight f +
    sale_price_score * sale_price_weight f in
  let similarity_factors :=
    [ ("location", location_score); ("size", size_score);
      ("age", age_score); ("zoning", zoning_score);
      ("value", value_score); ("sale_price", sale_price_score) ]%string in
  let confidence_score := calculate_confidence_score target_property candidate in
  Ok (similarity_score, similarity_factors, confidence_score).

(** ** Deterministic scoring *)

(** The [for] loop of [traditional_score_candidates], with the list
    [scored_properties] it appends to. *)
Fixpoint traditional_loop (self : t) (target_property : PropertyResponse)
    (candidates : list PropertyResponse)
    (scored_properties : list ComparableProperty)
  : result (list ComparableProperty) :=
  match candidates with
  | [] => Ok scored_properties
  | candidate :: rest =>
      if String.eqb (id candidate) (id target_property)
      then traditional_loop self target_property rest scored_properties
      else
        '(similarity_score, similarity_factors, confidence_score) <-
          calculate_similarity self target_property candidate ;;
        if Qgtb similarity_score 0.3 then
          let distance := calculate_distance target_property candidate in
          let comparable :=
            {| property_ := candidate;
               similarity_score := similarity_score;
               distance_miles := Some distance;
               similarity_factors := similarity_factors;
               confidence_score := confidence_score |} in
          traditional_loop self target_property rest
            (scored_properties ++ [comparable])
        else traditional_loop self target_property rest scored_properties
  end.

Definition traditional_score_candidates (self : t)
    (target_property : PropertyResponse) (candidates : list PropertyResponse)
  : result (list ComparableProperty) :=
  traditional_loop self target_property candidates [].

(** ** Scoring with the language model *)

Definition batch_size : nat := 5.

(** [next((c for c in batch if c.id == candidate_id), None)] *)
Definition find_candidate (candidate_id : option string)
    (batch : list PropertyResponse) : option PropertyResponse :=
  match candidate_id with
  | Some cid => find (fun c => String.eqb (id c) cid) batch
  | None => None
  end.

(** The loop over the parsed scores, inside the [try].  It appends to
    [scored_properties] in place, so what was appended before an exception
    stays: the result is the list together with the exception, if any. *)
Fixpoint ai_scores_loop (self : t) (target_property : PropertyResponse)
    (batch : list PropertyResponse) (ai_scores : list score_data)
    (scored_properties : list ComparableProperty)
  : list ComparableProperty * option exception :=
  match ai_scores with
  | [] => (scored_properties, None)
  | IllTyped :: _ => (scored_properties, Some TypeError)
  | ScoreData candidate_id similarity_score confidence_score :: rest =>
      match find_candidate candidate_id batch with
      | Some candidate =>
          if Qgtb similarity_score 0.3 then
            let distance := calculate_distance target_property candidate in
            match calculate_detailed_similarity_factors
                    self target_property candidate with
            | Raise e => (scored_properties, Some e)
            | Ok similarity_factors =>
                let comparable :=
                  {| property_ := candidate;
                     similarity_score := similarity_score;
                     distance_miles := Some distance;
                     similarity_factors := similarity_factors;
                     confidence_score := confidence_score |} in
                ai_scores_loop self target_property batch rest
                  (scored_properties ++ [comparable])
            end
          else ai_scores_loop self target_property batch rest scored_properties
      | None => ai_scores_loop self target_property batch rest scored_properties
      end
  end.

(** One iteration of the batch loop: the outer [try] with its handler for
    any exception, and inside it the [try] around [json.loads] and the loop
    over the scores, with its handler for [JSONDecodeError].  Both handlers
    score the whole batch deterministically and extend the list; what the
    inner handler raises is caught by the outer one. *)
Definition ai_score_batch (self : t) (target_property : PropertyResponse)
    (candidates : list PropertyResponse) (i : nat)
    (scored_properties : list ComparableProperty)
  : result (list ComparableProperty) :=
  let batch := slice candidates i (i + batch_size) in
  let fallback := fun (scored : list ComparableProperty) =>
    batch_scored <- traditional_score_candidates self target_property batch ;;
    Ok (scored ++ batch_scored) in
  match chat_completion (i / batch_size) with
  | CallRaises => fallback scored_properties
  | NotJSON =>
      match fallback scored_properties with
      | Ok scored => Ok scored
      | Raise _ => fallback scored_properties
      end
  | Parsed ai_scores =>
      match ai_scores_loop self target_property batch ai_scores
              scored_properties with
      | (scored, None) => Ok scored
      | (scored, Some _) => fallback scored
      end
  end.

Fixpoint ai_batches_loop (self : t) (target_property : PropertyResponse)
    (candidates : list PropertyResponse) (starts : list nat)
    (scored_properties : list ComparableProperty)
  : result (list ComparableProperty) :=
  match starts with
  | [] => Ok scored_properties
  | i :: rest =>
      scored <- ai_score_batch self target_property candidates i
                  scored_properties ;;
      ai_batches_loop self target_property candidates rest scored
  end.

Definition ai_score_candidates (self : t)
    (target_property : PropertyResponse) (candidates : list PropertyResponse)
  : result (list ComparableProperty) :=
  ai_batches_loop self target_property candidates
    (range_step (List.length candidates) batch_size) [].

(** ** The entry point *)

(** The default of the parameter [max_results]. *)
Definition max_results_default : Z := 10.

Definition find_comparables (self : t) (target_property : PropertyResponse)
    (max_results : Z) : result (list ComparableProperty) :=
  let candidates := get_candidate_properties target_property in
  match candidates with
  | [] => Ok []
  | _ :: _ =>
      scored_properties <-
        (if truthy_str (api_key self)
         then ai_score_candidates self target_property candidates
         else traditional_score_candidates self target_property candidates) ;;
      let sorted := sort_reverse similarity_score scored_properties in
      let results := slice_to sorted max_results in
      Ok results
  end.

End Collaborators.

End Agent.

Import Agent.

(* ===================================================================== *)
(** * The vocabulary of the specification *)
(* ===================================================================== *)

Module Spec.

(** The closed interval from 0 to 1. *)
Definition in_unit (x : Q) : Prop := 0 <= x /\ x <= 1.


(** The six factors with their configured weights. *)
Definition factor_weights (f : SimilarityFactors) : list (string * Q) :=
  [ ("location", location_weight f); ("size", size_weight f);
    ("age", age_weight f); ("zoning", zoning_weight f);
    ("value", value_weight f); ("sale_price", sale_price_weight f) ]%string.

(** The sum of factor score times factor weight, the scores read from a
    per-factor breakdown. *)
Definition weighted_sum (scores : dict Q) (weights : list (string * Q)) : Q :=
  fold_right
    (fun '(name, weight) acc =>
       match get scores name with
       | Some score => score * weight + acc
       | None => acc
       end)
    0 weights.

(** The essential fields, then the optional ones: is each populated? *)
Definition populated_fields (p : PropertyResponse) : list bool :=
  [ truthy_str (address p); truthy_str (city p); truthy_str (state p);
    truthy_float (building_area p); truthy_opt_str (zoning_code p);
    truthy_str (county_id p);
    truthy_int (year_built p); truthy_float (assessed_value p);
    truthy_float (latitude p); truthy_float (longitude p);
    truthy_float (lot_area p) ].

Definition nothing_populated (p : PropertyResponse) : Prop :=
  Forall (fun b => b = false) (populated_fields p).

(** Populated fields over fields considered. *)
Definition completeness (p : PropertyResponse) : Q :=
  inject_Z (Z.of_nat (List.length (filter (fun b => b) (populated_fields p))))
  / inject_Z (Z.of_nat (List.length (populated_fields p))).

Definition pair_completeness (a b : PropertyResponse) : Q :=
  (completeness a + completeness b) / 2.



(** The quality with 0.5 standing in for a score that is absent or zero. *)
Definition counted_quality (p : PropertyResponse) : Q :=
  match quality_score p with
  | Some q => if Qeq_bool q 0 then 0.5 else q
  | None => 0.5
  end.

Definition counted_pair_quality (a b : PropertyResponse) : Q :=
  (counted_quality a + counted_quality b) / 2.




(** The parcel has a year built, [y]: the field is there and is not zero
    (the scorers test fields for truth, so a zero counts as missing). *)
Definition has_year_built (p : PropertyResponse) (y : Z) : Prop :=
  year_built p = Some y /\ y <> 0%Z.

(** The two decay branches of the age rule, for a year difference [d]. *)
Definition age_within_tolerance (d tol : Q) : Q := 1 - (d / tol) * 0.5.

Definition age_beyond_tolerance (d tol : Q) : Q :=
  Qmax 0 (0.5 - (d - tol) / (2 * tol)).

(** The key sets of the two per-factor breakdowns. *)
Definition ai_breakdown_keys : list string :=
  ["location"; "size"; "age"; "zoning"; "value"]%string.

Definition deterministic_breakdown_keys : list string :=
  ["location"; "size"; "age"; "zoning"; "value"; "sale_price"]%string.

(** Purely deterministic scoring: [traditional_score_candidates] applied to
    all the candidates, the result sorted and truncated. *)
Definition deterministic_comparables
    (great_circle_miles : Q -> Q -> Q -> Q -> Q)
    (get_candidate_properties : PropertyResponse -> list PropertyResponse)
    (self : t) (target_property : PropertyResponse) (max_results : Z)
  : result (list ComparableProperty) :=
  scored_properties <-
    traditional_score_candidates great_circle_miles self target_property
      (get_candidate_properties target_property) ;;
  Ok (slice_to (sort_reverse similarity_score scored_properties) max_results).

(** A property [R] of comparables holds of whatever the deterministic loop
    appends. *)
Definition holds_of_traditional
    (great_circle_miles : Q -> Q -> Q -> Q -> Q) (self : t)
    (target : PropertyResponse) (R : ComparableProperty -> Prop) : Prop :=
  forall candidate s fs conf,
    calculate_similarity self target candidate = Ok (s, fs, conf) ->
    Qgtb s 0.3 = true ->
    R {| property_ := candidate;
         similarity_score := s;
         distance_miles :=
           Some (calculate_distance great_circle_miles target candidate);
         similarity_factors := fs;
         confidence_score := conf |}.

(** [R] holds of whatever the loop over the parsed scores appends. *)
Definition holds_of_ai
    (great_circle_miles : Q -> Q -> Q -> Q -> Q) (self : t)
    (target : PropertyResponse) (R : ComparableProperty -> Prop) : Prop :=
  forall candidate similarity confidence fs,
    Qgtb similarity 0.3 = true ->
    calculate_detailed_similarity_factors self target candidate = Ok fs ->
    R {| property_ := candidate;
         similarity_score := similarity;
         distance_miles :=
           Some (calculate_distance great_circle_miles target candidate);
         similarity_factors := fs;
         confidence_score := confidence |}.

(** Every call to the language-model service fails: it raises, or what it
    returns is not JSON. *)
Definition always_failing (chat_completion : nat -> completion) : Prop :=
  forall k, failed (chat_completion k) = true.

(** Every call succeeds with an array whose elements are all well typed. *)
Definition well_typed (d : score_data) : bool :=
  match d with
  | ScoreData _ _ _ => true
  | IllTyped => false
  end.

Definition always_answering (chat_completion : nat -> completion) : Prop :=
  forall k, exists ai_scores,
    chat_completion k = Parsed ai_scores /\ forallb well_typed ai_scores = true.

End Spec.

Import Spec.

(* ===================================================================== *)
(** * database.py: the table of properties *)
(* ===================================================================== *)

Module Db.

(** A row of the table [properties].  [id] is the primary key; every other
    column may be NULL.  The column [raw_data] is not read by the agent; the
    JSON column [outlier_flags] holds a list of strings, as the extraction
    writes it. *)
Record Property : Type := {
  id : string;
  county_id : option string;
  address : option string;
  city : option string;
  state : option string;
  zip_code : option string;
  property_type : option string;
  zoning_code : option string;
  building_area : option Q;
  lot_area : option Q;
  year_built : option Z;
  assessed_value : option Q;
  market_value : option Q;
  sale_price : option Q;
  sale_date : option Z;
  latitude : option Q;
  longitude : option Q;
  data_source : option string;
  last_updated : option Z;
  is_verified : option bool;
  quality_score : option Q;
  outlier_flags : option (list string)
}.

End Db.

(* ===================================================================== *)
(** * agents/comparable_discovery_agent.py: the candidates *)
(* ===================================================================== *)

Module Store.

(** [PropertyResponse(id=prop.id, ...)]: the fields declared [str],
    [datetime] and [bool] refuse [None] ([None] here: the
    [ValidationError] of the model). *)
Definition to_response (prop : Db.Property) : option PropertyResponse :=
  match Db.county_id prop, Db.address prop, Db.city prop, Db.state prop,
        Db.data_source prop, Db.last_updated prop, Db.is_verified prop with
  | Some county_id_, Some address_, Some city_, Some state_,
    Some data_source_, Some last_updated_, Some is_verified_ =>
      Some {| id := Db.id prop;
              county_id := county_id_;
              address := address_;
              city := city_;
              state := state_;
              zip_code := Db.zip_code prop;
              property_type := Db.property_type prop;
              zoning_code := Db.zoning_code prop;
              building_area := Db.building_area prop;
              lot_area := Db.lot_area prop;
              year_built := Db.year_built prop;
              assessed_value := Db.assessed_value prop;
              market_value := Db.market_value prop;
              sale_price := Db.sale_price prop;
              sale_date := Db.sale_date prop;
              latitude := Db.latitude prop;
              longitude := Db.longitude prop;
              data_source := data_source_;
              last_updated := last_updated_;
              quality_score := Db.quality_score prop;
              is_verified := is_verified_;
              outlier_flags := Db.outlier_flags prop |}
  | _, _, _, _, _, _, _ => None
  end.

(** The [for] loop that converts the rows, stopping at the first row the
    model refuses. *)
Fixpoint convert_all (all_results : list Db.Property)
  : option (list PropertyResponse) :=
  match all_results with
  | [] => Some []
  | prop :: rest =>
      match to_response prop with
      | None => None
      | Some candidate =>
          match convert_all rest with
          | None => None
          | Some candidates => Some (candidate :: candidates)
          end
      end
  end.

Definition is_not_null {A : Type} (x : option A) : bool :=
  match x with
  | Some _ => true
  | None => false
  end.

(** A comparison of a column with a value; NULL compares to nothing. *)
Definition column_eq (column : option string) (value : string) : bool :=
  match column with
  | Some v => String.eqb v value
  | None => false
  end.

Definition column_ne (column : option string) (value : string) : bool :=
  match column with
  | Some v => negb (String.eqb v value)
  | None => false
  end.

(** [get_candidate_properties] on a table whose rows the engine yields in
    the order of the list, for both queries. *)
Definition get_candidate_properties (table : list Db.Property)
    (target_property : PropertyResponse) : option (list PropertyResponse) :=
  let query :=
    filter (fun p => negb (String.eqb (Db.id p) (id target_property))
                     && is_not_null (Db.building_area p)) table in
  let same_county_query :=
    filter (fun p => column_eq (Db.county_id p) (county_id target_property))
      query in
  let same_county_results := firstn 50 same_county_query in
  let all_results :=
    if (List.length same_county_results <? 20)%nat then
      let other_county_query :=
        filter (fun p => column_ne (Db.county_id p) (county_id target_property))
          query in
      let other_county_results :=
        firstn (50 - List.length same_county_results) other_county_query in
      same_county_results ++ other_county_results
    else same_county_results in
  convert_all all_results.

End Store.

(* ===================================================================== *)
(** * agents/comparable_discovery_agent.py: recommendations and market
      analysis *)
(* ===================================================================== *)

Module Advice.

#[local] Set Warnings "-register-all".

(** What [json.loads] returns. *)
Inductive json : Type :=
| JNull
| JBool (b : bool)
| JInt (z : Z)
| JFloat (q : Q)
| JStr (s : string)
| JArr (items : list json)
| JObj (members : list (string * json)).

(** A [chat.completions.create] call followed by [json.loads]: the call
    raises, the content is not JSON, or it parses. *)
Inductive reply : Type :=
| ReplyRaises
| ReplyNotJSON
| ReplyJSON (value : json).

(** [d[key]] on a parsed object. *)
Definition member (d : json) (key : string) : option json :=
  match d with
  | JObj members => get members key
  | _ => None
  end.

Definition Qltb (x y : Q) : bool := negb (Qle_bool y x).

(** [sum(l)]: the additions start from 0, left to right. *)
Definition sum (l : list Q) : Q := fold_left Qplus l 0.

(** [min(l)] and [max(l)]; [None] is the [ValueError] of an empty list. *)
Definition min_of (l : list Q) : option Q :=
  match l with
  | [] => None
  | x :: rest => Some (fold_left Qmin rest x)
  end.

Definition max_of (l : list Q) : option Q :=
  match l with
  | [] => None
  | x :: rest => Some (fold_left Qmax rest x)
  end.

(** [int(x)] of a float: truncation towards zero. *)
Definition int_of_float (x : Q) : Z := Z.quot (Qnum x) (Z.pos (Qden x)).

(** [s.replace(old, new)] for one-character strings. *)
Definition replace_char (old new : ascii) (s : string) : string :=
  str_map (fun c => if Ascii.eqb c old then new else c) s.

(** [[c.distance_miles for c in comparables if c.distance_miles]] *)
Definition distances_of (comparables : list ComparableProperty) : list Q :=
  flat_map
    (fun c =>
       match distance_miles c with
       | Some d => if truthy_float (Some d) then [d] else []
       | None => []
       end)
    comparables.

Definition general_recommendations : list string :=
  [ "Review property condition and maintenance requirements";
    "Consider market trends and economic factors";
    "Evaluate potential for property improvements" ]%string.

Definition traditional_generate_recommendations
    (target_property : PropertyResponse)
    (comparables : list ComparableProperty) : list string :=
  match comparables with
  | [] =>
      [ "Expand search criteria to find more comparable properties";
        "Consider properties in adjacent markets" ]%string
  | _ :: _ =>
      let recommendations : list string := [] in
      let avg_similarity :=
        sum (map similarity_score comparables)
        / inject_Z (Z.of_nat (List.length comparables)) in
      let recommendations :=
        if Qltb avg_similarity 0.6
        then recommendations
             ++ ["Consider expanding search radius for better comparables"%string]
        else recommendations in
      let distances := distances_of comparables in
      let recommendations :=
        match distances with
        | [] => recommendations
        | _ :: _ =>
            let avg_distance :=
              sum distances / inject_Z (Z.of_nat (List.length distances)) in
            if Qgtb avg_distance 10
            then recommendations
                 ++ ["Consider local market factors due to distance from comparables"%string]
            else recommendations
        end in
      let recommendations := recommendations ++ general_recommendations in
      slice_to recommendations 5
  end.

(** The summary built inside the [try] of [ai_generate_recommendations]:
    the average similarity and the range of the distances.  [None]: the
    [ValueError] of [min] or [max] on an empty list of distances. *)
Definition analysis_summary (comparables : list ComparableProperty)
  : option (Q * Q * Q) :=
  let avg_similarity_score :=
    match comparables with
    | [] => 0
    | _ :: _ =>
        sum (map similarity_score comparables)
        / inject_Z (Z.of_nat (List.length comparables))
    end in
  match comparables with
  | [] => Some (avg_similarity_score, 0, 0)
  | _ :: _ =>
      match min_of (distances_of comparables),
            max_of (distances_of comparables) with
      | Some lo, Some hi => Some (avg_similarity_score, lo, hi)
      | _, _ => None
      end
  end.

(** [ai_generate_recommendations]; [chat_completion] is what the service
    answers to the prompt made of the summary.  Whatever is raised inside the
    [try] is handled by the deterministic recommendations. *)
Definition ai_generate_recommendations (self : t)
    (chat_completion : Q * Q * Q -> reply)
    (target_property : PropertyResponse)
    (comparables : list ComparableProperty) : list json :=
  let traditional :=
    map JStr (traditional_generate_recommendations target_property comparables) in
  if negb (truthy_str (api_key self)) then traditional
  else
    match analysis_summary comparables with
    | None => traditional
    | Some summary =>
        match chat_completion summary with
        | ReplyRaises => traditional
        | ReplyNotJSON => traditional
        | ReplyJSON (JArr recommendations) => recommendations
        | ReplyJSON _ => []
        end
    end.

(** The price per square foot of a record, where it has an assessed value
    and a building area. *)
Definition price_per_square_foot (p : PropertyResponse) : option Q :=
  match assessed_value p, building_area p with
  | Some value, Some area =>
      if truthy_float (Some value) && truthy_float (Some area)
      then Some (value / area) else None
  | _, _ => None
  end.

(** [comparable_psf], as the loop of [traditional_market_analysis] fills it. *)
Definition comparable_psf_of (comparables : list ComparableProperty) : list Q :=
  flat_map
    (fun comp =>
       match price_per_square_foot (property_ comp) with
       | Some psf => [psf]
       | None => []
       end)
    comparables.

Definition value_range_of (lo hi : Z) : json :=
  JObj [("min", JInt lo); ("max", JInt hi)]%string.

Section Formatting.

(** The format [:.2f] of an f-string. *)
Variable format_2f : Q -> string.

Definition traditional_market_analysis (target_property : PropertyResponse)
    (comparables : list ComparableProperty) : json :=
  match comparables with
  | [] =>
      JObj [ ("market_position", JStr "unknown");
             ("value_range", value_range_of 0 0);
             ("market_trends", JStr "Insufficient data for analysis");
             ("key_insights", JArr [JStr "No comparable properties found"]);
             ("recommendations", JArr [JStr "Expand search criteria"]) ]%string
  | _ :: _ =>
      let target_psf :=
        match price_per_square_foot target_property with
        | Some psf => psf
        | None => 0
        end in
      let comparable_psf := comparable_psf_of comparables in
      match min_of comparable_psf, max_of comparable_psf with
      | Some min_psf, Some max_psf =>
          let avg_psf :=
            sum comparable_psf
            / inject_Z (Z.of_nat (List.length comparable_psf)) in
          let market_position :=
            if Qgtb target_psf (avg_psf * 1.1) then "above_market"%string
            else if Qltb target_psf (avg_psf * 0.9) then "below_market"%string
            else "at_market"%string in
          let value_range :=
            match building_area target_property with
            | Some area =>
                if truthy_float (Some area)
                then value_range_of (int_of_float (min_psf * area))
                                    (int_of_float (max_psf * area))
                else value_range_of 0 0
            | None => value_range_of 0 0
            end in
          JObj [ ("market_position", JStr market_position);
                 ("value_range", value_range);
                 ("market_trends",
                  JStr ("Average price per sq ft: $" ++ format_2f avg_psf));
                 ("key_insights",
                  JArr [ JStr ("Property positioned "
                               ++ replace_char "_" " " market_position);
                         JStr ("Comparable properties range from $"
                               ++ format_2f min_psf ++ " to $"
                               ++ format_2f max_psf ++ " per sq ft") ]);
                 ("recommendations",
                  JArr [ JStr "Consider local market conditions";
                         JStr "Review property condition and amenities" ]) ]%string
      | _, _ =>
          JObj [ ("market_position", JStr "unknown");
                 ("value_range", value_range_of 0 0);
                 ("market_trends", JStr "Insufficient valuation data");
                 ("key_insights",
                  JArr [JStr "Comparable properties lack sufficient valuation data"]);
                 ("recommendations",
                  JArr [JStr "Obtain professional appraisal"]) ]%string
      end
  end.

(** [ai_generate_market_insights]: the reply of the service is returned as
    it parses; without a key, or when anything in the [try] raises, the
    deterministic analysis is. *)
Definition ai_generate_market_insights (self : t) (chat_completion : reply)
    (target_property : PropertyResponse)
    (comparables : list ComparableProperty) : json :=
  if negb (truthy_str (api_key self))
  then traditional_market_analysis target_property comparables
  else
    match chat_completion with
    | ReplyRaises => traditional_market_analysis target_property comparables
    | ReplyNotJSON => traditional_market_analysis target_property comparables
    | ReplyJSON value => value
    end.

End Formatting.

End Advice.

(* ===================================================================== *)
(** * Further vocabulary *)
(* ===================================================================== *)

Module Terms.

(** Weights that are not negative and sum to one, a positive age tolerance
    and a value tolerance that is not negative. *)
Definition sound_configuration (f : SimilarityFactors) : Prop :=
  0 <= location_weight f /\ 0 <= size_weight f /\ 0 <= age_weight f /\
  0 <= zoning_weight f /\ 0 <= value_weight f /\ 0 <= sale_price_weight f /\
  location_weight f + size_weight f + age_weight f + zoning_weight f
  + value_weight f + sale_price_weight f == 1 /\
  (0 < age_tolerance_years f)%Z /\
  0 <= value_tolerance_percent f.

Definition no_negative_area (p : PropertyResponse) : Prop :=
  forall a, building_area p = Some a -> 0 <= a.

Definition fully_populated (p : PropertyResponse) : Prop :=
  Forall (fun b => b = true) (populated_fields p).

(** Both parcels have a latitude and a longitude, none of them zero. *)
Definition coordinates_known (target candidate : PropertyResponse) : bool :=
  truthy_float (latitude target) && truthy_float (longitude target)
  && truthy_float (latitude candidate) && truthy_float (longitude candidate).

(** The candidate is not the target and its deterministic similarity is
    computed and above 0.3. *)
Definition qualifies (self : t) (target candidate : PropertyResponse) : bool :=
  negb (String.eqb (id candidate) (id target))
  && match calculate_similarity self target candidate with
     | Ok (similarity, _, _) => Qgtb similarity 0.3
     | Raise _ => false
     end.

(** The comparable is one the deterministic loop builds for a candidate of
    [pool]: every field is computed from the target and the candidate. *)
Definition scored_deterministically
    (great_circle_miles : Q -> Q -> Q -> Q -> Q) (self : t)
    (target : PropertyResponse) (pool : list PropertyResponse)
    (c : ComparableProperty) : Prop :=
  In (property_ c) pool /\
  id (property_ c) <> id target /\
  calculate_similarity self target (property_ c)
  = Ok (similarity_score c, similarity_factors c, confidence_score c) /\
  0.3 < similarity_score c /\
  distance_miles c
  = Some (calculate_distance great_circle_miles target (property_ c)).

(** The comparable is one the loop over the parsed scores builds for a
    candidate of [pool]: its similarity (above 0.3) and its confidence are
    those of an element of a reply of the service that names the candidate,
    its breakdown and its distance are computed. *)
Definition scored_by_service
    (great_circle_miles : Q -> Q -> Q -> Q -> Q)
    (chat_completion : nat -> completion) (self : t)
    (target : PropertyResponse) (pool : list PropertyResponse)
    (c : ComparableProperty) : Prop :=
  In (property_ c) pool /\
  0.3 < similarity_score c /\
  (exists k ai_scores,
     chat_completion k = Parsed ai_scores /\
     In (ScoreData (Some (id (property_ c)))
           (similarity_score c) (confidence_score c)) ai_scores) /\
  calculate_detailed_similarity_factors self target (property_ c)
  = Ok (similarity_factors c) /\
  distance_miles c
  = Some (calculate_distance great_circle_miles target (property_ c)).

(** The scoring step of [find_comparables]: with the language model when
    the agent has a key, deterministic otherwise. *)
Definition scoring (great_circle_miles : Q -> Q -> Q -> Q -> Q)
    (chat_completion : nat -> completion) (self : t)
    (target : PropertyResponse) (candidates : list PropertyResponse)
  : result (list ComparableProperty) :=
  if truthy_str (api_key self)
  then ai_score_candidates great_circle_miles chat_completion self target
         candidates
  else traditional_score_candidates great_circle_miles self target candidates.

(** The comparables of a list that are about the parcel with a given id. *)
Definition about (parcel_id : string) (l : list ComparableProperty)
  : list ComparableProperty :=
  filter (fun c => String.eqb (id (property_ c)) parcel_id) l.

End Terms.

Import Terms.

(* ===================================================================== *)
(** * Concrete parcels used by the examples below *)
(* ===================================================================== *)

Module Examples.

Definition parcel (id_ county_id_ city_ : string) (zoning_code_ : option string)
    (building_area_ : option Q) (year_built_ : option Z)
    (assessed_value_ sale_price_ : option Q) : PropertyResponse :=
  {| id := id_;
     county_id := county_id_;
     address := "100 Industrial Way";
     city := city_;
     state := "IL";
     zip_code := None;
     property_type := Some "industrial"%string;
     zoning_code := zoning_code_;
     building_area := building_area_;
     lot_area := None;
     year_built := year_built_;
     assessed_value := assessed_value_;
     market_value := None;
     sale_price := sale_price_;
     sale_date := None;
     latitude := None;
     longitude := None;
     data_source := "ATTOM";
     last_updated := 0;
     quality_score := None;
     is_verified := false;
     outlier_flags := None |}.


(** The end-to-end pair of the specification. *)
Definition chicago_target : PropertyResponse :=
  parcel "t" "cook" "Chicago" (Some "M-1"%string)
    (Some 50000) (Some 2000%Z) (Some 2000000) None.

Definition chicago_candidate : PropertyResponse :=
  parcel "c1" "cook" "Chicago" (Some "M-1"%string)
    (Some 55000) (Some 2005%Z) (Some 2100000) None.

Definition dallas_candidate : PropertyResponse :=
  parcel "c2" "dallas" "Dallas" (Some "I-2"%string)
    (Some 120000) (Some 1985%Z) (Some 900000) (Some 1500000).

Definition residential_candidate : PropertyResponse :=
  parcel "c3" "cook" "Evanston" (Some "RESIDENTIAL"%string)
    (Some 52000) (Some 2001%Z) (Some 1900000) None.

(** A target whose building area is negative. *)
Definition negative_area_target : PropertyResponse :=
  parcel "t" "cook" "Chicago" (Some "M-1"%string)
    (Some (-100)) (Some 2000%Z) (Some 2000000) None.

Definition negative_area_candidate : PropertyResponse :=
  parcel "c4" "cook" "Chicago" (Some "M-1"%string)
    (Some (-50)) (Some 2005%Z) (Some 2100000) None.

(** Two records assessed at zero. *)
Definition zero_assessed : PropertyResponse :=
  parcel "z" "cook" "Chicago" (Some "M-1"%string)
    (Some 50000) (Some 2000%Z) (Some 0) None.

Definition no_distance : Q -> Q -> Q -> Q -> Q := fun _ _ _ _ => 0.

Definition store (_ : PropertyResponse) : list PropertyResponse :=
  [chicago_candidate; dallas_candidate; residential_candidate].

Definition always_fails (_ : nat) : completion := CallRaises.

Definition approves (_ : nat) : completion :=
  Parsed [ ScoreData (Some "c2"%string) 0.45 0.8;
           ScoreData (Some "c1"%string) 0.9 0.95;
           ScoreData (Some "c3"%string) 0.2 0.5;
           ScoreData (Some "unknown"%string) 0.99 0.99 ].

End Examples.

Import Examples.

(* ===================================================================== *)
(** * Further concrete cases *)
(* ===================================================================== *)

Module Cases.

Import Examples Advice.

(** An agent whose age tolerance has been set to zero. *)
Definition zero_tolerance_agent : t :=
  {| factors :=
       {| sale_price_weight := 0.35;
          size_weight := 0.25;
          value_weight := 0.20;
          location_weight := 0.10;
          age_weight := 0.05;
          zoning_weight := 0.05;
          max_distance_miles := 10.0;
          size_tolerance_percent := 0.5;
          age_tolerance_years := 0;
          value_tolerance_percent := 0.3 |};
     api_key := "" |}.

Definition lower_case_candidate : PropertyResponse :=
  parcel "c5" "cook" "Chicago" (Some "m-1"%string)
    (Some 60000) (Some 1999%Z) (Some 2500000) None.

Definition row (id_ county_id_ city_ : string) (zoning_code_ : option string)
    (building_area_ : option Q) (year_built_ : option Z)
    (assessed_value_ : option Q) : Db.Property :=
  {| Db.id := id_;
     Db.county_id := Some county_id_;
     Db.address := Some "100 Industrial Way"%string;
     Db.city := Some city_;
     Db.state := Some "IL"%string;
     Db.zip_code := None;
     Db.property_type := Some "industrial"%string;
     Db.zoning_code := zoning_code_;
     Db.building_area := building_area_;
     Db.lot_area := None;
     Db.year_built := year_built_;
     Db.assessed_value := assessed_value_;
     Db.market_value := None;
     Db.sale_price := None;
     Db.sale_date := None;
     Db.latitude := None;
     Db.longitude := None;
     Db.data_source := Some "ATTOM"%string;
     Db.last_updated := Some 0%Z;
     Db.is_verified := Some false;
     Db.quality_score := None;
     Db.outlier_flags := None |}.

(** A table with the target itself, a row without a building area, two
    other rows of the target's county and one of another county. *)
Definition example_table : list Db.Property :=
  [ row "c2" "dallas" "Dallas" (Some "I-2"%string)
      (Some 120000) (Some 1985%Z) (Some 900000);
    row "t" "cook" "Chicago" (Some "M-1"%string)
      (Some 50000) (Some 2000%Z) (Some 2000000);
    row "c1" "cook" "Chicago" (Some "M-1"%string)
      (Some 55000) (Some 2005%Z) (Some 2100000);
    row "c6" "cook" "Cicero" (Some "M-2"%string)
      None (Some 1990%Z) (Some 700000);
    row "c3" "cook" "Evanston" (Some "RESIDENTIAL"%string)
      (Some 52000) (Some 2001%Z) (Some 1900000) ].

(** The candidates read from [example_table]. *)
Definition table_candidates (target : PropertyResponse)
  : list PropertyResponse :=
  match Store.get_candidate_properties example_table target with
  | Some candidates => candidates
  | None => []
  end.

(** A reply that approves the first candidate and then holds an element
    that is not an object. *)
Definition approves_then_breaks (_ : nat) : completion :=
  Parsed [ScoreData (Some "c1"%string) 0.9 0.95; IllTyped].

(** A reply with a similarity above 1 and a negative confidence. *)
Definition overrates (_ : nat) : completion :=
  Parsed [ScoreData (Some "c1"%string) 7 (-3)].

Definition comparable (p : PropertyResponse) (similarity : Q)
    (distance : option Q) : ComparableProperty :=
  {| property_ := p;
     similarity_score := similarity;
     distance_miles := distance;
     similarity_factors := [];
     confidence_score := 0.8 |}.

Definition nearby_comparables : list ComparableProperty :=
  [ comparable chicago_candidate 0.9 (Some 5.0);
    comparable residential_candidate 0.7 (Some 25.0) ].

(** Comparables at the target's own coordinates: the distance is zero. *)
Definition colocated_comparables : list ComparableProperty :=
  [ comparable chicago_candidate 0.9 (Some 0); 
    comparable residential_candidate 0.7 None ].





(** A target with no assessed value. *)
Definition unassessed_target : PropertyResponse :=
  parcel "t" "cook" "Chicago" (Some "M-1"%string)
    (Some 50000) (Some 2000%Z) None None.

Definition answers_array (_ : Q * Q * Q) : reply :=
  ReplyJSON (JArr [JStr "Hold"]).

Definition two_decimals (_ : Q) : string := "0.00".

End Cases.

Import Cases.

(* ===================================================================== *)
(** * Facts about the Python behaviours *)
(* ===================================================================== *)

(** Closes a goal [in_unit c] for a constant [c]. *)
Ltac unit_interval := unfold in_unit; split; lra.

Section PyFacts.

Lemma Qgtb_true (x y : Q) : Qgtb x y = true <-> y < x.
Proof.
  unfold Qgtb. rewrite negb_true_iff. split.
  - intros H. apply Qnot_le_lt. intros Hle.
    apply Qle_bool_iff in Hle. congruence.
  - intros H. destruct (Qle_bool x y) eqn:E; [|reflexivity].
    apply Qle_bool_iff in E. exfalso. apply (Qlt_not_le _ _ H E).
Qed.

Lemma Qgtb_false (x y : Q) : Qgtb x y = false <-> x <= y.
Proof.
  unfold Qgtb. rewrite negb_false_iff. apply Qle_bool_iff.
Qed.

Lemma Qgeb_true (x y : Q) : Qgeb x y = true <-> y <= x.
Proof. unfold Qgeb. apply Qle_bool_iff. Qed.

Lemma Qgeb_false (x y : Q) : Qgeb x y = false <-> x < y.
Proof.
  unfold Qgeb. split.
  - intros H. apply Qnot_le_lt. intros Hle.
    apply Qle_bool_iff in Hle. congruence.
  - intros H. destruct (Qle_bool y x) eqn:E; [|reflexivity].
    apply Qle_bool_iff in E. exfalso. apply (Qlt_not_le _ _ H E).
Qed.

Lemma Qeq_bool_false (x y : Q) : Qeq_bool x y = false <-> ~ x == y.
Proof.
  split.
  - intros H Heq. apply Qeq_eq_bool in Heq. congruence.
  - intros H. destruct (Qeq_bool x y) eqn:E; [|reflexivity].
    apply Qeq_bool_eq in E. contradiction.
Qed.

Lemma truthy_float_Some (v : Q) : truthy_float (Some v) = true <-> ~ v == 0.
Proof. simpl. rewrite negb_true_iff. apply Qeq_bool_false. Qed.

Lemma truthy_int_Some (v : Z) : truthy_int (Some v) = true <-> v <> 0%Z.
Proof. simpl. rewrite negb_true_iff. apply Z.eqb_neq. Qed.

Lemma bind_Ok {A B : Type} (r : result A) (k : A -> result B) (b : B) :
  bind r k = Ok b -> exists a, r = Ok a /\ k a = Ok b.
Proof. destruct r as [a|e]; simpl; [eauto | discriminate]. Qed.

Lemma bind_assoc {A B C : Type} (r : result A)
    (k : A -> result B) (h : B -> result C) :
  bind (bind r k) h = bind r (fun a => bind (k a) h).
Proof. destruct r; reflexivity. Qed.

Lemma bind_ret {A : Type} (r : result A) : bind r Ok = r.
Proof. destruct r; reflexivity. Qed.

(** A handler that repeats the computation that has just raised. *)
Lemma retry_same {A : Type} (r : result A) :
  match r with
  | Ok a => Ok a
  | Raise _ => r
  end = r.
Proof. destruct r; reflexivity. Qed.

End PyFacts.

Section SortFacts.

Variable A : Type.
Variable key : A -> Q.

Lemma insert_reverse_perm (x : A) (l : list A) :
  Permutation (insert_reverse key x l) (x :: l).
Proof.
  induction l as [|y l IH]; simpl.
  - apply Permutation_refl.
  - destruct (Qle_bool (key y) (key x)).
    + apply Permutation_refl.
    + eapply perm_trans; [apply perm_skip, IH | apply perm_swap].
Qed.

Lemma sort_reverse_perm (l : list A) : Permutation (sort_reverse key l) l.
Proof.
  induction l as [|x l IH]; simpl.
  - apply perm_nil.
  - eapply perm_trans; [apply insert_reverse_perm | apply perm_skip, IH].
Qed.

Lemma insert_reverse_sorted (x : A) (l : list A) :
  StronglySorted (key_ge key) l -> StronglySorted (key_ge key) (insert_reverse key x l).
Proof.
  induction l as [|y l IH]; intros Hs; simpl.
  - constructor; constructor.
  - inversion Hs as [|? ? Hl Hy]; subst.
    destruct (Qle_bool (key y) (key x)) eqn:E.
    + apply Qle_bool_iff in E. constructor; [exact Hs|].
      constructor; [exact E|].
      eapply Forall_impl; [|exact Hy].
      intros b Hb. unfold key_ge in *. eapply Qle_trans; eassumption.
    + constructor; [apply IH; exact Hl|].
      apply (Permutation_Forall (Permutation_sym (insert_reverse_perm x l))).
      constructor; [|exact Hy].
      unfold key_ge. apply Qlt_le_weak, Qnot_le_lt. intros Hle.
      apply Qle_bool_iff in Hle. congruence.
Qed.

Lemma sort_reverse_sorted (l : list A) :
  StronglySorted (key_ge key) (sort_reverse key l).
Proof.
  induction l as [|x l IH]; simpl.
  - constructor.
  - apply insert_reverse_sorted, IH.
Qed.

Lemma sort_reverse_Forall (P : A -> Prop) (l : list A) :
  Forall P l -> Forall P (sort_reverse key l).
Proof.
  intros H. apply (Permutation_Forall (Permutation_sym (sort_reverse_perm l))), H.
Qed.

(** *** Slices *)

Lemma firstn_Forall (P : A -> Prop) (n : nat) (l : list A) :
  Forall P l -> Forall P (firstn n l).
Proof.
  revert l; induction n as [|n IH]; intros [|x l] H; simpl; try constructor.
  - inversion H; assumption.
  - inversion H; subst. apply IH. assumption.
Qed.

Lemma firstn_sorted (R : A -> A -> Prop) (n : nat) (l : list A) :
  StronglySorted R l -> StronglySorted R (firstn n l).
Proof.
  revert l; induction n as [|n IH]; intros [|x l] H; simpl; try constructor.
  - inversion H; subst. apply IH. assumption.
  - inversion H; subst. apply firstn_Forall. assumption.
Qed.

Lemma slice_to_Forall (P : A -> Prop) (l : list A) (k : Z) :
  Forall P l -> Forall P (slice_to l k).
Proof.
  intros H. unfold slice_to. destruct (0 <=? k)%Z; apply firstn_Forall, H.
Qed.

Lemma slice_to_sorted (R : A -> A -> Prop) (l : list A) (k : Z) :
  StronglySorted R l -> StronglySorted R (slice_to l k).
Proof.
  intros H. unfold slice_to. destruct (0 <=? k)%Z; apply firstn_sorted, H.
Qed.

Lemma slice_to_length (l : list A) (k : Z) :
  (0 <= k)%Z -> (Z.of_nat (List.length (slice_to l k)) <= k)%Z.
Proof.
  intros Hk. unfold slice_to.
  destruct (0 <=? k)%Z eqn:E; [|apply Z.leb_gt in E; lia].
  rewrite length_firstn. lia.
Qed.

Lemma firstn_plus (n m : nat) (l : list A) :
  firstn (n + m) l = firstn n l ++ firstn m (skipn n l).
Proof.
  revert l; induction n as [|n IH]; intros l; simpl.
  - reflexivity.
  - destruct l as [|x l]; simpl.
    + now rewrite firstn_nil.
    + now rewrite IH.
Qed.

Lemma skipn_plus (n m : nat) (l : list A) :
  skipn (n + m) l = skipn m (skipn n l).
Proof.
  revert l; induction n as [|n IH]; intros l; simpl.
  - reflexivity.
  - destruct l as [|x l]; simpl.
    + now rewrite skipn_nil.
    + apply IH.
Qed.

End SortFacts.

(* ===================================================================== *)
(** * The factor scorers *)
(* ===================================================================== *)

Section ScorerFacts.

Lemma ratio_in_unit (smaller larger : Q) :
  0 <= smaller -> smaller <= larger -> 0 < larger ->
  in_unit (smaller / larger).
Proof.
  intros H0 Hle Hpos. split.
  - apply Qle_shift_div_l; [exact Hpos | lra].
  - apply Qle_shift_div_r; [exact Hpos | lra].
Qed.

Lemma Qmin_le_Qmax (a b : Q) : Qmin a b <= Qmax a b.
Proof.
  eapply Qle_trans; [apply Q.le_min_l | apply Q.le_max_l].
Qed.

Lemma location_in_unit (target candidate : PropertyResponse) :
  in_unit (calculate_location_similarity target candidate).
Proof.
  unfold calculate_location_similarity.
  destruct (String.eqb _ _); [unit_interval|].
  destruct (String.eqb _ _); unit_interval.
Qed.

Lemma zoning_in_unit (target candidate : PropertyResponse) :
  in_unit (calculate_zoning_similarity target candidate).
Proof.
  unfold calculate_zoning_similarity.
  destruct (zoning_code target) as [tz|]; [|unit_interval].
  destruct (zoning_code candidate) as [cz|]; [|unit_interval].
  repeat match goal with
         | |- in_unit (if ?b then _ else _) => destruct b
         end; unit_interval.
Qed.

Lemma Qmax_bounds (lo hi a b : Q) :
  lo <= a -> a <= hi -> b <= hi -> lo <= Qmax a b /\ Qmax a b <= hi.
Proof.
  intros H1 H2 H3. split.
  - eapply Qle_trans; [exact H1 | apply Q.le_max_l].
  - apply Q.max_lub; assumption.
Qed.

(** The rule shared by the assessed-value and the sale-price scorers. *)
Lemma ratio_rule_in_unit (ratio tolerance : Q) :
  0 <= tolerance ->
  in_unit (if Qgeb ratio (1 - tolerance) then 1.0 else Qmax 0.0 ratio).
Proof.
  intros Htol. destruct (Qgeb ratio (1 - tolerance)) eqn:E; [unit_interval|].
  apply Qgeb_false in E. apply Qmax_bounds; lra.
Qed.

Lemma value_in_unit (self : t) (target candidate : PropertyResponse) :
  0 <= value_tolerance_percent (factors self) ->
  in_unit (calculate_value_similarity self target candidate).
Proof.
  intros Htol. unfold calculate_value_similarity.
  destruct (assessed_value target) as [tv|]; [|unit_interval].
  destruct (assessed_value candidate) as [cv|]; [|unit_interval].
  destruct (_ || _); [unit_interval|].
  destruct (Qeq_bool _ 0); [unit_interval|].
  apply ratio_rule_in_unit, Htol.
Qed.

Lemma sale_price_in_unit (target candidate : PropertyResponse) :
  in_unit (calculate_sale_price_similarity target candidate).
Proof.
  unfold calculate_sale_price_similarity.
  destruct (sale_price target) as [tp|]; [|unit_interval].
  destruct (sale_price candidate) as [cp|]; [|unit_interval].
  destruct (_ || _); [unit_interval|].
  destruct (Qeq_bool _ 0); [unit_interval|].
  apply ratio_rule_in_unit. lra.
Qed.

(** The size scorer stays in the interval when no area is negative. *)
Lemma size_in_unit (target candidate : PropertyResponse) :
  (forall a, building_area target = Some a -> 0 <= a) ->
  (forall a, building_area candidate = Some a -> 0 <= a) ->
  in_unit (calculate_size_similarity target candidate).
Proof.
  intros Ht Hc. unfold calculate_size_similarity.
  destruct (building_area target) as [ta|]; [|unit_interval].
  destruct (building_area candidate) as [ca|]; [|unit_interval].
  specialize (Ht ta eq_refl). specialize (Hc ca eq_refl).
  destruct (_ || _); [unit_interval|].
  destruct (Qeq_bool (Qmax ta ca) 0) eqn:E0; [unit_interval|].
  apply Qeq_bool_false in E0.
  assert (Hmax : 0 < Qmax ta ca).
  { assert (0 <= Qmax ta ca) by (eapply Qle_trans; [exact Ht | apply Q.le_max_l]).
    apply Qle_lteq in H. destruct H as [H|H]; [exact H|].
    exfalso. apply E0. symmetry. exact H. }
  assert (Hmin : 0 <= Qmin ta ca) by (apply Q.min_glb; assumption).
  pose proof (ratio_in_unit _ _ Hmin (Qmin_le_Qmax ta ca) Hmax) as [Hlo Hhi].
  cbv zeta. destruct (Qgeb _ 0.5); unfold in_unit; split; lra.
Qed.

(** With a tolerance other than zero the age scorer raises nothing. *)
Lemma age_returns (self : t) (target candidate : PropertyResponse) :
  age_tolerance_years (factors self) <> 0%Z ->
  exists score, calculate_age_similarity self target candidate = Ok score.
Proof.
  intros Htol. unfold calculate_age_similarity, truediv.
  destruct (year_built target) as [ty|]; [|eauto].
  destruct (year_built candidate) as [cy|]; [|eauto].
  destruct (_ || _); [eauto|].
  assert (H1 : Qeq_bool (inject_Z (age_tolerance_years (factors self))) 0 = false).
  { apply Qeq_bool_false. intros H. apply Htol.
    unfold Qeq in H. simpl in H. lia. }
  assert (H2 : Qeq_bool (inject_Z (age_tolerance_years (factors self) * 2)) 0 = false).
  { apply Qeq_bool_false. intros H. apply Htol.
    unfold Qeq in H. simpl in H. lia. }
  cbv zeta. rewrite H1, H2. simpl.
  destruct (_ <=? _)%Z; eauto.
Qed.

Lemma inject_Z_nonneg (z : Z) : (0 <= z)%Z -> 0 <= inject_Z z.
Proof. intros H. unfold Qle. simpl. lia. Qed.

Lemma inject_Z_pos (z : Z) : (0 < z)%Z -> 0 < inject_Z z.
Proof. intros H. unfold Qlt. simpl. lia. Qed.

Lemma inject_Z_le (a b : Z) : (a <= b)%Z -> inject_Z a <= inject_Z b.
Proof. intros H. unfold Qle. simpl. lia. Qed.

Lemma age_in_unit (self : t) (target candidate : PropertyResponse) (score : Q) :
  (0 < age_tolerance_years (factors self))%Z ->
  calculate_age_similarity self target candidate = Ok score ->
  in_unit score.
Proof.
  intros Htol. unfold calculate_age_similarity, truediv.
  destruct (year_built target) as [ty|];
    [|intros H; injection H as <-; unit_interval].
  destruct (year_built candidate) as [cy|];
    [|intros H; injection H as <-; unit_interval].
  destruct (_ || _); [intros H; injection H as <-; unit_interval|].
  cbv zeta.
  set (d := Z.abs (ty - cy)). set (tol := age_tolerance_years (factors self)).
  fold tol in Htol.
  destruct (d <=? tol)%Z eqn:E.
  - apply Z.leb_le in E.
    destruct (Qeq_bool (inject_Z tol) 0); simpl; [discriminate|].
    intros H; injection H as <-.
    assert (Hr : in_unit (inject_Z d / inject_Z tol)).
    { apply ratio_in_unit.
      - apply inject_Z_nonneg. unfold d. lia.
      - apply inject_Z_le, E.
      - apply inject_Z_pos, Htol. }
    destruct Hr as [Hlo Hhi]. unfold in_unit. split; lra.
  - apply Z.leb_gt in E.
    destruct (Qeq_bool (inject_Z (tol * 2)) 0); simpl; [discriminate|].
    intros H; injection H as <-.
    assert (Hq : 0 <= inject_Z (d - tol) / inject_Z (tol * 2)).
    { apply Qle_shift_div_l; [apply inject_Z_pos; lia|].
      rewrite Qmult_0_l. apply inject_Z_nonneg. lia. }
    apply Qmax_bounds; lra.
Qed.

End ScorerFacts.

(* ===================================================================== *)
(** * Zoning, age and size *)
(* ===================================================================== *)

Section ZoningAgeSize.

(** The code "M-1" is not one of the industrial codes; "M1" is. *)
Lemma M_1_not_industrial :
  set_in (upper "M-1") industrial_codes = false /\
  set_in (upper "M1") industrial_codes = true /\
  set_in (upper "I-2") industrial_codes = true.
Proof. repeat split; reflexivity. Qed.

(** Two different codes of the industrial set score 0.8. *)
Lemma zoning_both_industrial (target candidate : PropertyResponse) :
  zoning_code target = Some "M1"%string ->
  zoning_code candidate = Some "I-2"%string ->
  calculate_zoning_similarity target candidate = 0.8.
Proof.
  intros Ht Hc. unfold calculate_zoning_similarity. rewrite Ht, Hc. reflexivity.
Qed.

(** C5, on the code: for a target zoned "M-1" the zoning scorer returns 1.0
    against "M-1", 0.3 against "I-2" (the industrial-code set holds "M1",
    not "M-1", so the 0.8 of two industrial codes is not reached) and 0.3
    against "RESIDENTIAL". *)
Theorem zoning_scores_of_M_1 (target candidate : PropertyResponse) :
  zoning_code target = Some "M-1"%string ->
  (zoning_code candidate = Some "M-1"%string ->
   calculate_zoning_similarity target candidate = 1.0) /\
  (zoning_code candidate = Some "I-2"%string ->
   calculate_zoning_similarity target candidate = 0.3) /\
  (zoning_code candidate = Some "RESIDENTIAL"%string ->
   calculate_zoning_similarity target candidate = 0.3).
Proof.
  intros Ht. unfold calculate_zoning_similarity. rewrite Ht.
  repeat split; intros Hc; rewrite Hc; reflexivity.
Qed.

Lemma zoning_scores_of_M_1_witness :
  calculate_zoning_similarity chicago_target chicago_candidate = 1.0 /\
  calculate_zoning_similarity chicago_target dallas_candidate = 0.3 /\
  calculate_zoning_similarity chicago_target residential_candidate = 0.3.
Proof.
  destruct (zoning_scores_of_M_1 chicago_target chicago_candidate eq_refl)
    as [Hsame _].
  destruct (zoning_scores_of_M_1 chicago_target dallas_candidate eq_refl)
    as [_ [Hindustrial _]].
  destruct (zoning_scores_of_M_1 chicago_target residential_candidate eq_refl)
    as [_ [_ Hresidential]].
  split; [apply Hsame; reflexivity|].
  split; [apply Hindustrial; reflexivity | apply Hresidential; reflexivity].
Defined.

Lemma inject_Z_nonzero (z : Z) : z <> 0%Z -> ~ inject_Z z == 0.
Proof. intros H E. apply H. unfold Qeq in E. simpl in E. lia. Qed.

(** C7: for two parcels that both have a year built and a tolerance [tol]
    other than zero, the age scorer returns
    [1 - (d/tol) * 0.5] when the year difference [d] is at most [tol] and
    [max(0, 0.5 - (d - tol)/(2 tol))] beyond it; at [d = tol] the score is 0.5
    and the two branches agree. *)
Theorem age_rule (self : t) (target candidate : PropertyResponse) (ty cy : Z) :
  has_year_built target ty -> has_year_built candidate cy ->
  age_tolerance_years (factors self) <> 0%Z ->
  let tol := age_tolerance_years (factors self) in
  let d := Z.abs (ty - cy) in
  exists score,
    calculate_age_similarity self target candidate = Ok score /\
    ((d <= tol)%Z -> score == age_within_tolerance (inject_Z d) (inject_Z tol)) /\
    ((tol < d)%Z -> score == age_beyond_tolerance (inject_Z d) (inject_Z tol)) /\
    (d = tol ->
     score == 0.5 /\
     age_within_tolerance (inject_Z d) (inject_Z tol)
     == age_beyond_tolerance (inject_Z d) (inject_Z tol)).
Proof.
  intros [Ht Hty] [Hc Hcy] Htol tol d.
  unfold calculate_age_similarity, truediv. rewrite Ht, Hc.
  apply truthy_int_Some in Hty, Hcy. rewrite Hty, Hcy. simpl orb. cbv zeta.
  fold tol d.
  pose proof (inject_Z_nonzero tol Htol) as Hq.
  assert (H1 : Qeq_bool (inject_Z tol) 0 = false) by (apply Qeq_bool_false, Hq).
  assert (H2 : Qeq_bool (inject_Z (tol * 2)) 0 = false).
  { apply Qeq_bool_false, inject_Z_nonzero. lia. }
  assert (Hboundary : d = tol ->
            age_within_tolerance (inject_Z d) (inject_Z tol) == 0.5 /\
            age_beyond_tolerance (inject_Z d) (inject_Z tol) == 0.5).
  { intros ->. unfold age_within_tolerance, age_beyond_tolerance. split.
    - field. exact Hq.
    - assert (E : 0.5 - (inject_Z tol - inject_Z tol) / (2 * inject_Z tol) == 0.5)
        by (field; exact Hq).
      rewrite E. apply Q.max_r. lra. }
  rewrite H1, H2. simpl bind.
  destruct (d <=? tol)%Z eqn:E.
  - apply Z.leb_le in E. eexists. split; [reflexivity|].
    assert (Hw : 1.0 - inject_Z d / inject_Z tol * 0.5
                 == age_within_tolerance (inject_Z d) (inject_Z tol))
      by (unfold age_within_tolerance; ring).
    split; [intros _; exact Hw|]. split; [intros Hlt; lia|].
    intros Heq. destruct (Hboundary Heq) as [Hb1 Hb2]. split.
    + rewrite Hw. exact Hb1.
    + rewrite Hb1, Hb2. reflexivity.
  - apply Z.leb_gt in E. eexists. split; [reflexivity|].
    split; [intros Hle; lia|]. split; [|intros Heq; lia].
    intros _. unfold age_beyond_tolerance.
    assert (Hr : inject_Z (d - tol) / inject_Z (tol * 2)
                 == (inject_Z d - inject_Z tol) / (2 * inject_Z tol)).
    { unfold Z.sub. rewrite inject_Z_plus, inject_Z_opp, inject_Z_mult.
      field. exact Hq. }
    rewrite Hr.
    apply Q.max_compat; [reflexivity | reflexivity].
Qed.

Lemma age_rule_witness :
  exists score,
    calculate_age_similarity (init "") chicago_target chicago_candidate = Ok score /\
    score == age_within_tolerance 5 10.
Proof.
  destruct (age_rule (init "") chicago_target chicago_candidate 2000 2005)
    as [score [Hs [Hin _]]];
    try (split; [reflexivity | discriminate]); try discriminate.
  exists score. split; [exact Hs|].
  apply Hin. vm_compute. discriminate.
Defined.

(** C8: the size scorer is symmetric, and a parcel whose building area is
    not zero scores 1.0 against itself. *)
Theorem size_symmetric_and_reflexive (a b : PropertyResponse) :
  calculate_size_similarity a b == calculate_size_similarity b a /\
  (forall area, building_area a = Some area -> ~ area == 0 ->
     calculate_size_similarity a a == 1.0).
Proof.
  split.
  - unfold calculate_size_similarity.
    destruct (building_area a) as [x|], (building_area b) as [y|];
      try reflexivity.
    rewrite (orb_comm (negb (truthy_float (Some y)))).
    destruct (_ || _); [reflexivity|]. cbv zeta.
    pose proof (Q.max_comm x y) as Hmax. pose proof (Q.min_comm x y) as Hmin.
    rewrite <- (Qeqb_comp _ _ Hmax 0 0 (Qeq_refl 0)).
    destruct (Qeq_bool (Qmax x y) 0); [reflexivity|].
    assert (Hr : Qmin x y / Qmax x y == Qmin y x / Qmax y x)
      by (rewrite Hmax, Hmin; reflexivity).
    unfold Qgeb. rewrite <- (Qleb_comp _ _ (Qeq_refl 0.5) _ _ Hr).
    destruct (Qle_bool 0.5 (Qmin x y / Qmax x y)); rewrite Hr; reflexivity.
  - intros area Ha Hnz. unfold calculate_size_similarity. rewrite Ha.
    apply truthy_float_Some in Hnz as Htruthy. rewrite Htruthy. simpl orb.
    cbv zeta.
    assert (Hmax : Qmax area area == area) by (apply Q.max_l, Qle_refl).
    assert (Hmin : Qmin area area == area) by (apply Q.min_l, Qle_refl).
    assert (H0 : Qeq_bool (Qmax area area) 0 = false).
    { apply Qeq_bool_false. rewrite Hmax. exact Hnz. }
    assert (Hr : Qmin area area / Qmax area area == 1).
    { rewrite Hmax, Hmin. field. exact Hnz. }
    rewrite H0.
    assert (Hge : Qgeb (Qmin area area / Qmax area area) 0.5 = true).
    { apply Qgeb_true. rewrite Hr. lra. }
    rewrite Hge, Hr. reflexivity.
Qed.

Lemma size_symmetric_and_reflexive_witness :
  calculate_size_similarity chicago_target chicago_target == 1.0.
Proof.
  destruct (size_symmetric_and_reflexive chicago_target chicago_candidate)
    as [_ Hrefl].
  apply (Hrefl 50000); [reflexivity | discriminate].
Defined.

End ZoningAgeSize.

(* ===================================================================== *)
(** * Assessed value, confidence, and the weighted sum *)
(* ===================================================================== *)

Section ValueConfidenceSum.

Lemma Qmax_zero_cases (x y : Q) : Qmax x y == 0 -> x == 0 \/ y == 0.
Proof.
  intros H. destruct (Q.max_spec x y) as [[_ E]|[_ E]]; rewrite E in H; auto.
Qed.

Lemma Qmax_nonzero (x y : Q) : ~ x == 0 -> ~ y == 0 -> ~ Qmax x y == 0.
Proof. intros Hx Hy H. destruct (Qmax_zero_cases _ _ H); contradiction. Qed.

Lemma truthy_float_zero (v : Q) : v == 0 -> truthy_float (Some v) = false.
Proof. intros H. simpl. apply negb_false_iff, Qeq_eq_bool, H. Qed.

(** C9, at a pair of parcels both assessed at zero: the larger assessed
    value is 0 and the scorer does not return 0.0. *)
Lemma value_of_zero_assessed_not_zero :
  ~ (Qmax 0 0 == 0 ->
     calculate_value_similarity (init "") zero_assessed zero_assessed == 0.0).
Proof.
  intros H. specialize (H (Qeq_refl _)). vm_compute in H. discriminate.
Qed.

(** C9, as amended: the assessed-value scorer returns 0.5 when either
    assessed value is missing or zero, hence also whenever the larger of the
    two is 0; when both are non-zero it returns 1.0 if smaller/larger is at
    least 1 - tolerance and max(0, ratio) otherwise; it is never negative. *)
Theorem value_rule (self : t) (target candidate : PropertyResponse) :
  let tolerance := value_tolerance_percent (factors self) in
  let score := calculate_value_similarity self target candidate in
  (truthy_float (assessed_value target) = false \/
   truthy_float (assessed_value candidate) = false -> score = 0.5) /\
  (forall tv cv,
     assessed_value target = Some tv -> assessed_value candidate = Some cv ->
     (Qmax tv cv == 0 -> score = 0.5) /\
     (~ tv == 0 -> ~ cv == 0 ->
      let ratio := Qmin tv cv / Qmax tv cv in
      (1 - tolerance <= ratio -> score = 1.0) /\
      (ratio < 1 - tolerance -> score = Qmax 0.0 ratio))) /\
  0 <= score.
Proof.
  intros tolerance score.
  assert (Hmissing : truthy_float (assessed_value target) = false \/
                     truthy_float (assessed_value candidate) = false ->
                     score = 0.5).
  { unfold score, calculate_value_similarity.
    destruct (assessed_value target) as [tv|]; [|reflexivity].
    destruct (assessed_value candidate) as [cv|]; [|reflexivity].
    intros [H|H]; rewrite H; simpl; [reflexivity|].
    rewrite orb_true_r. reflexivity. }
  split; [exact Hmissing|]. split.
  - intros tv cv Ht Hc. split.
    + intros Hmax. apply Hmissing. rewrite Ht, Hc.
      destruct (Qmax_zero_cases _ _ Hmax) as [H|H];
        [left | right]; apply truthy_float_zero, H.
    + intros Htv Hcv ratio.
      unfold score, calculate_value_similarity. rewrite Ht, Hc.
      apply truthy_float_Some in Htv as Htt, Hcv as Hct.
      rewrite Htt, Hct. simpl orb. cbv zeta.
      assert (H0 : Qeq_bool (Qmax tv cv) 0 = false)
        by (apply Qeq_bool_false, Qmax_nonzero; assumption).
      rewrite H0. fold ratio tolerance. split; intros Hr.
      * apply Qgeb_true in Hr. rewrite Hr. reflexivity.
      * apply Qgeb_false in Hr. rewrite Hr. reflexivity.
  - unfold score, calculate_value_similarity.
    destruct (assessed_value target) as [tv|]; [|lra].
    destruct (assessed_value candidate) as [cv|]; [|lra].
    destruct (_ || _); [lra|]. cbv zeta.
    destruct (Qeq_bool _ 0); [lra|].
    destruct (Qgeb _ _); [lra|].
    eapply Qle_trans; [|apply Q.le_max_l]. lra.
Qed.

Lemma value_rule_witness :
  calculate_value_similarity (init "") chicago_target chicago_candidate = 1.0 /\
  calculate_value_similarity (init "") zero_assessed chicago_candidate = 0.5.
Proof.
  destruct (value_rule (init "") chicago_target chicago_candidate)
    as [_ [Hboth _]].
  destruct (Hboth 2000000 2100000 eq_refl eq_refl) as [_ Hratio].
  destruct Hratio as [Hwithin _]; [discriminate | discriminate |].
  destruct (value_rule (init "") zero_assessed chicago_candidate)
    as [Hmissing _].
  split.
  - apply Hwithin. vm_compute. discriminate.
  - apply Hmissing. left. reflexivity.
Defined.

(** The two loops of [calculate_data_completeness] count the fields and the
    populated ones. *)
Lemma count_fields (fields : list bool) (total completed : Z) :
  fold_left
    (fun '(total, completed) (field : bool) =>
       ((total + 1)%Z, if field then (completed + 1)%Z else completed))
    fields (total, completed)
  = ((total + Z.of_nat (List.length fields))%Z,
     (completed + Z.of_nat (List.length (filter (fun b => b) fields)))%Z).
Proof.
  revert total completed. induction fields as [|b fields IH]; intros total completed.
  - simpl. f_equal; lia.
  - cbn [fold_left]. rewrite IH. destruct b; cbn [filter List.length]; f_equal; lia.
Qed.

Lemma data_completeness_is_ratio (p : PropertyResponse) :
  calculate_data_completeness p = completeness p.
Proof.
  unfold calculate_data_completeness, completeness. cbv zeta.
  rewrite !count_fields.
  unfold populated_fields.
  repeat match goal with
         | |- context [truthy_str ?x] => destruct (truthy_str x)
         | |- context [truthy_float ?x] => destruct (truthy_float x)
         | |- context [truthy_int ?x] => destruct (truthy_int x)
         | |- context [truthy_opt_str ?x] => destruct (truthy_opt_str x)
         end; reflexivity.
Qed.




Lemma confidence_formula (target candidate : PropertyResponse) :
  calculate_confidence_score target candidate
  == Qmin 1 (0.6 * pair_completeness target candidate
             + 0.4 * counted_pair_quality target candidate).
Proof.
  unfold calculate_confidence_score. rewrite !data_completeness_is_ratio.
  unfold pair_completeness, counted_pair_quality, counted_quality, or_float.
  apply Q.min_compat; [reflexivity | ring].
Qed.








(** C3: when [calculate_similarity] returns (it does whenever the age
    tolerance is not zero), its overall score is the sum over the six
    factors of the factor's score times its configured weight, the scores
    being those of the six scorers as listed in the breakdown. *)
Theorem similarity_is_weighted_sum (self : t) (target candidate : PropertyResponse) :
  age_tolerance_years (factors self) <> 0%Z ->
  exists score breakdown confidence age_score,
    calculate_similarity self target candidate = Ok (score, breakdown, confidence) /\
    calculate_age_similarity self target candidate = Ok age_score /\
    breakdown =
      [ ("location", calculate_location_similarity target candidate);
        ("size", calculate_size_similarity target candidate);
        ("age", age_score);
        ("zoning", calculate_zoning_similarity target candidate);
        ("value", calculate_value_similarity self target candidate);
        ("sale_price", calculate_sale_price_similarity target candidate)
      ]%string /\
    score == weighted_sum breakdown (factor_weights (factors self)).
Proof.
  intros Htol.
  destruct (age_returns self target candidate Htol) as [age_score Hage].
  unfold calculate_similarity. rewrite Hage. simpl bind.
  do 4 eexists. split; [reflexivity|]. split; [reflexivity|].
  split; [reflexivity|].
  unfold weighted_sum, factor_weights. simpl. ring.
Qed.

Lemma similarity_is_weighted_sum_witness :
  exists score breakdown confidence,
    calculate_similarity (init "") chicago_target chicago_candidate
    = Ok (score, breakdown, confidence) /\
    score == weighted_sum breakdown (factor_weights SimilarityFactors_default).
Proof.
  destruct (similarity_is_weighted_sum (init "") chicago_target chicago_candidate)
    as [score [breakdown [confidence [age_score [Hs [_ [_ Hsum]]]]]]].
  - discriminate.
  - exists score, breakdown, confidence. split; assumption.
Defined.

(** The end-to-end pair of the specification: the same city, areas 50000
    and 55000, years 2000 and 2005, both zoned "M-1", assessed at 2.0 and
    2.1 million, no sale price. *)
Example end_to_end_breakdown :
  exists score confidence,
    calculate_similarity (init "") chicago_target chicago_candidate
    = Ok (score,
          [ ("location", 1.0); ("size", 50000 / 55000); ("age", 1.0 - 5 / 10 * 0.5);
            ("zoning", 1.0); ("value", 1.0); ("sale_price", 0.5) ]%string,
          confidence) /\
    score == 139 # 176.
Proof. do 2 eexists. split; reflexivity. Qed.

(** C4, on the code: with a target whose building area is -100 the size
    scorer returns -1/1100 against a candidate of 55000 square feet and 2
    against a candidate of area -50; neither value lies in the interval
    from 0 to 1. *)
Theorem size_score_of_negative_area :
  building_area negative_area_target = Some (-100) /\
  building_area chicago_candidate = Some 55000 /\
  building_area negative_area_candidate = Some (-50) /\
  calculate_size_similarity negative_area_target chicago_candidate
  == - (1 # 1100) /\
  calculate_size_similarity negative_area_target negative_area_candidate
  == 2 /\
  ~ in_unit (calculate_size_similarity negative_area_target chicago_candidate) /\
  ~ in_unit (calculate_size_similarity negative_area_target
               negative_area_candidate).
Proof.
  repeat (split; [reflexivity|]). split.
  - intros [H _]. vm_compute in H. apply H. reflexivity.
  - intros [_ H]. vm_compute in H. apply H. reflexivity.
Qed.

(** With the default configuration the other five scorers stay in the
    interval, and so does the size scorer on areas that are not negative. *)
Lemma scorers_in_unit (target candidate : PropertyResponse) :
  let self := init "" in
  in_unit (calculate_location_similarity target candidate) /\
  (exists age_score,
     calculate_age_similarity self target candidate = Ok age_score /\
     in_unit age_score) /\
  in_unit (calculate_zoning_similarity target candidate) /\
  in_unit (calculate_value_similarity self target candidate) /\
  in_unit (calculate_sale_price_similarity target candidate) /\
  ((forall a, building_area target = Some a -> 0 <= a) ->
   (forall a, building_area candidate = Some a -> 0 <= a) ->
   in_unit (calculate_size_similarity target candidate)).
Proof.
  intros self. split; [apply location_in_unit|]. split.
  - destruct (age_returns self target candidate) as [a Ha]; [discriminate|].
    exists a. split; [exact Ha|].
    apply (age_in_unit self target candidate); [reflexivity | exact Ha].
  - split; [apply zoning_in_unit|]. split.
    + apply value_in_unit. simpl. lra.
    + split; [apply sale_price_in_unit | apply size_in_unit].
Qed.

End ValueConfidenceSum.

(* ===================================================================== *)
(** * The scoring loops *)
(* ===================================================================== *)

Section Loops.

Variable great_circle_miles : Q -> Q -> Q -> Q -> Q.
Variable chat_completion : nat -> completion.
Variable self : t.
Variable target : PropertyResponse.

Lemma calculate_similarity_returns (candidate : PropertyResponse) :
  age_tolerance_years (factors self) <> 0%Z ->
  exists r, calculate_similarity self target candidate = Ok r.
Proof.
  intros Htol. destruct (age_returns self target candidate Htol) as [a Ha].
  unfold calculate_similarity. rewrite Ha. simpl. eauto.
Qed.

Lemma detailed_factors_returns (candidate : PropertyResponse) :
  age_tolerance_years (factors self) <> 0%Z ->
  exists fs, calculate_detailed_similarity_factors self target candidate = Ok fs.
Proof.
  intros Htol. destruct (age_returns self target candidate Htol) as [a Ha].
  unfold calculate_detailed_similarity_factors. rewrite Ha. simpl. eauto.
Qed.

(** *** The deterministic loop *)

Lemma traditional_loop_acc (candidates : list PropertyResponse)
    (scored : list ComparableProperty) :
  traditional_loop great_circle_miles self target candidates scored
  = (r <- traditional_loop great_circle_miles self target candidates [] ;; Ok (scored ++ r)).
Proof.
  revert scored. induction candidates as [|c rest IH]; intros scored.
  - simpl. now rewrite app_nil_r.
  - cbn [traditional_loop].
    destruct (String.eqb (id c) (id target)); [apply IH|].
    destruct (calculate_similarity self target c) as [[[s fs] conf]|e];
      [|reflexivity].
    cbn [bind]. destruct (Qgtb s 0.3); [|apply IH].
    rewrite (IH (scored ++ _)), (IH ([] ++ _)).
    destruct (traditional_loop great_circle_miles self target rest []); [|reflexivity].
    cbn [bind]. now rewrite <- !app_assoc.
Qed.

Lemma traditional_app (l1 l2 : list PropertyResponse) :
  traditional_score_candidates great_circle_miles self target (l1 ++ l2)
  = (a <- traditional_score_candidates great_circle_miles self target l1 ;;
     b <- traditional_score_candidates great_circle_miles self target l2 ;;
     Ok (a ++ b)).
Proof.
  unfold traditional_score_candidates.
  assert (G : forall scored,
             traditional_loop great_circle_miles self target (l1 ++ l2) scored
             = (a <- traditional_loop great_circle_miles self target l1 scored ;;
                traditional_loop great_circle_miles self target l2 a)).
  { induction l1 as [|c rest IH]; intros scored; [reflexivity|].
    cbn [app traditional_loop].
    destruct (String.eqb (id c) (id target)); [apply IH|].
    destruct (calculate_similarity self target c) as [[[s fs] conf]|e];
      [|reflexivity].
    cbn [bind]. destruct (Qgtb s 0.3); apply IH. }
  rewrite G.
  destruct (traditional_loop great_circle_miles self target l1 []) as [a|e];
    [|reflexivity].
  cbn [bind]. apply traditional_loop_acc.
Qed.

Lemma traditional_loop_returns (candidates : list PropertyResponse)
    (scored : list ComparableProperty) :
  age_tolerance_years (factors self) <> 0%Z ->
  exists l, traditional_loop great_circle_miles self target candidates scored = Ok l.
Proof.
  intros Htol. revert scored.
  induction candidates as [|c rest IH]; intros scored; cbn [traditional_loop].
  - eauto.
  - destruct (String.eqb (id c) (id target)); [apply IH|].
    destruct (calculate_similarity_returns c Htol) as [[[s fs] conf] Hs].
    rewrite Hs. cbn [bind]. destruct (Qgtb s 0.3); apply IH.
Qed.

Section Invariant.

(** A property of comparables that holds of what each path appends. *)
Variable R : ComparableProperty -> Prop.

Lemma traditional_loop_invariant (candidates : list PropertyResponse)
    (scored l : list ComparableProperty) :
  holds_of_traditional great_circle_miles self target R -> Forall R scored ->
  traditional_loop great_circle_miles self target candidates scored = Ok l -> Forall R l.
Proof.
  intros HR. revert scored.
  induction candidates as [|c rest IH]; intros scored Hacc;
    cbn [traditional_loop].
  - intros H; injection H as <-. exact Hacc.
  - destruct (String.eqb (id c) (id target)); [apply IH, Hacc|].
    destruct (calculate_similarity self target c) as [[[s fs] conf]|e] eqn:Hs;
      [|discriminate].
    cbn [bind]. destruct (Qgtb s 0.3) eqn:Hgt; [|apply IH, Hacc].
    apply IH. apply Forall_app. split; [exact Hacc|].
    constructor; [|constructor]. apply (HR c s fs conf Hs Hgt).
Qed.

Lemma ai_scores_loop_invariant (batch : list PropertyResponse)
    (ai_scores : list score_data) (scored : list ComparableProperty) :
  holds_of_ai great_circle_miles self target R -> Forall R scored ->
  Forall R (fst (ai_scores_loop great_circle_miles self target batch
                   ai_scores scored)).
Proof.
  intros HR. revert scored.
  induction ai_scores as [|d rest IH]; intros scored Hacc;
    cbn [ai_scores_loop].
  - exact Hacc.
  - destruct d as [cid sim conf|]; [|exact Hacc].
    destruct (find_candidate cid batch) as [c|]; [|apply IH, Hacc].
    destruct (Qgtb sim 0.3) eqn:Hgt; [|apply IH, Hacc].
    destruct (calculate_detailed_similarity_factors self target c) as [fs|e]
      eqn:Hfs; [|exact Hacc].
    apply IH. apply Forall_app. split; [exact Hacc|].
    constructor; [|constructor]. apply (HR c sim conf fs Hgt Hfs).
Qed.

Lemma ai_score_batch_invariant (candidates : list PropertyResponse) (i : nat)
    (scored l : list ComparableProperty) :
  holds_of_ai great_circle_miles self target R ->
  holds_of_traditional great_circle_miles self target R -> Forall R scored ->
  ai_score_batch great_circle_miles chat_completion self target
    candidates i scored = Ok l ->
  Forall R l.
Proof.
  intros Hai Htr Hacc. unfold ai_score_batch.
  assert (Hfb : forall acc batch r,
             Forall R acc ->
             (batch_scored <-
                traditional_score_candidates great_circle_miles self target
                  batch ;;
              Ok (acc ++ batch_scored))
             = Ok r -> Forall R r).
  { intros acc batch r Hf H. apply bind_Ok in H as [bs [Hbs H]].
    injection H as <-. apply Forall_app. split; [exact Hf|].
    apply (traditional_loop_invariant batch [] bs Htr (Forall_nil R) Hbs). }
  destruct (chat_completion (i / batch_size)) as [| |ai_scores].
  - apply Hfb, Hacc.
  - rewrite retry_same. apply Hfb, Hacc.
  - pose proof (ai_scores_loop_invariant
                  (slice candidates i (i + batch_size)) ai_scores scored
                  Hai Hacc) as Hloop.
    destruct (ai_scores_loop _ _ _ _ _ _) as [scored' [e|]]; cbn [fst] in Hloop.
    + apply Hfb, Hloop.
    + intros H; injection H as <-. exact Hloop.
Qed.

Lemma ai_batches_loop_invariant (candidates : list PropertyResponse)
    (starts : list nat) (scored l : list ComparableProperty) :
  holds_of_ai great_circle_miles self target R ->
  holds_of_traditional great_circle_miles self target R -> Forall R scored ->
  ai_batches_loop great_circle_miles chat_completion self target
    candidates starts scored = Ok l ->
  Forall R l.
Proof.
  intros Hai Htr. revert scored.
  induction starts as [|i rest IH]; intros scored Hacc; cbn [ai_batches_loop].
  - intros H; injection H as <-. exact Hacc.
  - intros H. apply bind_Ok in H as [scored' [Hb H]].
    apply (IH scored'); [|exact H].
    apply (ai_score_batch_invariant candidates i scored scored' Hai Htr Hacc Hb).
Qed.

End Invariant.

End Loops.

(* ===================================================================== *)
(** * [find_comparables] *)
(* ===================================================================== *)

Section Pipeline.

Variable great_circle_miles : Q -> Q -> Q -> Q -> Q.
Variable get_candidate_properties : PropertyResponse -> list PropertyResponse.
Variable chat_completion : nat -> completion.
Variable self : t.
Variable target : PropertyResponse.

(** *** Every batch falls back *)

Lemma batches_cover (n : nat) : (n <= (n + batch_size - 1) / batch_size * batch_size)%nat.
Proof.
  unfold batch_size.
  pose proof (Nat.div_mod_eq (n + 5 - 1) 5) as Hdiv.
  pose proof (Nat.mod_upper_bound (n + 5 - 1) 5) as Hmod.
  lia.
Qed.

Lemma ai_batches_failing (candidates : list PropertyResponse) :
  always_failing chat_completion ->
  forall (m k0 : nat) (scored : list ComparableProperty),
    ai_batches_loop great_circle_miles chat_completion self target candidates
      (map (fun k => (k * batch_size)%nat) (seq k0 m)) scored
    = (r <- traditional_score_candidates great_circle_miles self target
              (firstn (m * batch_size) (skipn (k0 * batch_size) candidates)) ;;
       Ok (scored ++ r)).
Proof.
  intros Hfail. induction m as [|m IH]; intros k0 scored.
  - simpl. now rewrite app_nil_r.
  - cbn [seq map ai_batches_loop].
    assert (Hbatch :
      ai_score_batch great_circle_miles chat_completion self target candidates
        (k0 * batch_size) scored
      = (r <- traditional_score_candidates great_circle_miles self target
                (firstn batch_size (skipn (k0 * batch_size) candidates)) ;;
         Ok (scored ++ r))).
    { unfold ai_score_batch, slice.
      replace (k0 * batch_size + batch_size - k0 * batch_size)%nat
        with batch_size by lia.
      specialize (Hfail (k0 * batch_size / batch_size)%nat).
      destruct (chat_completion _);
        [reflexivity | apply retry_same | discriminate]. }
    rewrite Hbatch.
    replace (S m * batch_size)%nat with (batch_size + m * batch_size)%nat by lia.
    rewrite firstn_plus, traditional_app, <- skipn_plus.
    replace (k0 * batch_size + batch_size)%nat with (S k0 * batch_size)%nat by lia.
    destruct (traditional_score_candidates great_circle_miles self target
                (firstn batch_size (skipn (k0 * batch_size) candidates)))
      as [r1|e]; [|reflexivity].
    cbn [bind]. rewrite IH.
    destruct (traditional_score_candidates great_circle_miles self target
                (firstn (m * batch_size) (skipn (S k0 * batch_size) candidates)))
      as [r2|e]; [|reflexivity].
    cbn [bind]. now rewrite app_assoc.
Qed.

Lemma ai_score_candidates_failing (candidates : list PropertyResponse) :
  always_failing chat_completion ->
  ai_score_candidates great_circle_miles chat_completion self target candidates
  = traditional_score_candidates great_circle_miles self target candidates.
Proof.
  intros Hfail. unfold ai_score_candidates, range_step.
  rewrite (ai_batches_failing candidates Hfail).
  cbn [skipn Nat.mul]. rewrite firstn_all2 by apply batches_cover.
  destruct (traditional_score_candidates _ _ _ _); reflexivity.
Qed.

(** *** Every batch is answered *)

Lemma ai_scores_loop_completes (batch : list PropertyResponse)
    (ai_scores : list score_data) (scored : list ComparableProperty) :
  age_tolerance_years (factors self) <> 0%Z ->
  forallb well_typed ai_scores = true ->
  snd (ai_scores_loop great_circle_miles self target batch ai_scores scored)
  = None.
Proof.
  intros Htol. revert scored.
  induction ai_scores as [|d rest IH]; intros scored Hwt;
    cbn [ai_scores_loop]; [reflexivity|].
  cbn [forallb] in Hwt. apply andb_true_iff in Hwt as [Hd Hrest].
  destruct d as [cid sim conf|]; [|discriminate].
  destruct (find_candidate cid batch) as [c|]; [|apply IH, Hrest].
  destruct (Qgtb sim 0.3); [|apply IH, Hrest].
  destruct (detailed_factors_returns self target c Htol) as [fs Hfs].
  rewrite Hfs. apply IH, Hrest.
Qed.

Lemma ai_batches_answering (R : ComparableProperty -> Prop)
    (candidates : list PropertyResponse) :
  age_tolerance_years (factors self) <> 0%Z ->
  always_answering chat_completion ->
  holds_of_ai great_circle_miles self target R ->
  forall (starts : list nat) (scored : list ComparableProperty),
    Forall R scored ->
    exists l,
      ai_batches_loop great_circle_miles chat_completion self target
        candidates starts scored = Ok l /\ Forall R l.
Proof.
  intros Htol Hans HR. induction starts as [|i rest IH]; intros scored Hacc;
    cbn [ai_batches_loop].
  - eauto.
  - unfold ai_score_batch.
    destruct (Hans (i / batch_size)%nat) as [ai_scores [Hc Hwt]]. rewrite Hc.
    pose proof (ai_scores_loop_completes
                  (slice candidates i (i + batch_size)) ai_scores scored
                  Htol Hwt) as Hnone.
    pose proof (ai_scores_loop_invariant great_circle_miles self target R
                  (slice candidates i (i + batch_size)) ai_scores scored
                  HR Hacc) as Hinv.
    destruct (ai_scores_loop _ _ _ _ _ _) as [scored' exc].
    cbn [fst snd] in Hnone, Hinv. subst exc. cbn [bind]. apply IH, Hinv.
Qed.

(** *** Totality *)

Lemma ai_batches_loop_returns (candidates : list PropertyResponse)
    (starts : list nat) (scored : list ComparableProperty) :
  age_tolerance_years (factors self) <> 0%Z ->
  exists l,
    ai_batches_loop great_circle_miles chat_completion self target
      candidates starts scored = Ok l.
Proof.
  intros Htol. revert scored.
  induction starts as [|i rest IH]; intros scored; cbn [ai_batches_loop].
  - eauto.
  - assert (Hb : exists scored',
               ai_score_batch great_circle_miles chat_completion self target
                 candidates i scored = Ok scored').
    { unfold ai_score_batch.
      assert (Hfb : forall acc,
                 exists scored',
                   (batch_scored <-
                      traditional_score_candidates great_circle_miles self
                        target (slice candidates i (i + batch_size)) ;;
                    Ok (acc ++ batch_scored)) = Ok scored').
      { intros acc.
        destruct (traditional_loop_returns great_circle_miles self target
                    (slice candidates i (i + batch_size)) [] Htol) as [bs Hbs].
        unfold traditional_score_candidates. rewrite Hbs. cbn [bind]. eauto. }
      destruct (chat_completion (i / batch_size)) as [| |ai_scores];
        [apply Hfb | rewrite retry_same; apply Hfb |].
      destruct (ai_scores_loop _ _ _ _ _ _) as [scored' [e|]];
        [apply Hfb | eauto]. }
    destruct Hb as [scored' Hb]. rewrite Hb. cbn [bind]. apply IH.
Qed.

Lemma find_comparables_returns (max_results : Z) :
  age_tolerance_years (factors self) <> 0%Z ->
  exists results,
    find_comparables great_circle_miles get_candidate_properties
      chat_completion self target max_results = Ok results.
Proof.
  intros Htol. unfold find_comparables.
  destruct (get_candidate_properties target) as [|c cs]; [eauto|].
  destruct (truthy_str (api_key self)).
  - destruct (ai_batches_loop_returns (c :: cs)
                (range_step (List.length (c :: cs)) batch_size) [] Htol)
      as [l Hl].
    unfold ai_score_candidates. rewrite Hl. cbn [bind]. eauto.
  - destruct (traditional_loop_returns great_circle_miles self target
                (c :: cs) [] Htol) as [l Hl].
    unfold traditional_score_candidates. rewrite Hl. cbn [bind]. eauto.
Qed.

(** Whatever is scored satisfies a property that holds of what both paths
    append. *)
Lemma find_comparables_invariant (R : ComparableProperty -> Prop)
    (max_results : Z) (results : list ComparableProperty) :
  holds_of_ai great_circle_miles self target R ->
  holds_of_traditional great_circle_miles self target R ->
  find_comparables great_circle_miles get_candidate_properties
    chat_completion self target max_results = Ok results ->
  Forall R results /\
  StronglySorted (key_ge similarity_score) results /\
  ((0 <= max_results)%Z -> (Z.of_nat (List.length results) <= max_results)%Z).
Proof.
  intros Hai Htr. unfold find_comparables.
  destruct (get_candidate_properties target) as [|c cs].
  - intros H; injection H as <-. repeat split; [constructor | constructor|].
    simpl. lia.
  - intros H. apply bind_Ok in H as [scored [Hscored H]]. injection H as <-.
    assert (Hall : Forall R scored).
    { destruct (truthy_str (api_key self)).
      - apply (ai_batches_loop_invariant great_circle_miles chat_completion
                 self target R (c :: cs) _ [] scored Hai Htr (Forall_nil R)
                 Hscored).
      - apply (traditional_loop_invariant great_circle_miles self target R
                 (c :: cs) [] scored Htr (Forall_nil R) Hscored). }
    split; [|split].
    + apply slice_to_Forall, sort_reverse_Forall, Hall.
    + apply slice_to_sorted, sort_reverse_sorted.
    + apply slice_to_length.
Qed.

End Pipeline.

(* ===================================================================== *)
(** * The results of [find_comparables] *)
(* ===================================================================== *)

Section Results.

Variable great_circle_miles : Q -> Q -> Q -> Q -> Q.
Variable get_candidate_properties : PropertyResponse -> list PropertyResponse.
Variable chat_completion : nat -> completion.
Variable self : t.
Variable target : PropertyResponse.

Lemma above_threshold_of_ai :
  holds_of_ai great_circle_miles self target
    (fun c => ~ similarity_score c <= 0.3).
Proof.
  intros candidate similarity confidence fs Hgt _. cbn [similarity_score].
  apply Qlt_not_le, Qgtb_true, Hgt.
Qed.

Lemma above_threshold_of_traditional :
  holds_of_traditional great_circle_miles self target
    (fun c => ~ similarity_score c <= 0.3).
Proof.
  intros candidate s fs conf _ Hgt. cbn [similarity_score].
  apply Qlt_not_le, Qgtb_true, Hgt.
Qed.

(** C1: the list [find_comparables] returns holds no comparable whose
    similarity score is at most 0.3, is sorted non-increasing by similarity
    score and, for a [max_results] that is not negative, has at most
    [max_results] elements; and the call does return when the age tolerance
    is not zero. *)
Theorem find_comparables_filtered_sorted_bounded (max_results : Z) :
  (forall results,
     find_comparables great_circle_miles get_candidate_properties
       chat_completion self target max_results = Ok results ->
     Forall (fun c => ~ similarity_score c <= 0.3) results /\
     StronglySorted (key_ge similarity_score) results /\
     ((0 <= max_results)%Z ->
      (Z.of_nat (List.length results) <= max_results)%Z)) /\
  (age_tolerance_years (factors self) <> 0%Z ->
   exists results,
     find_comparables great_circle_miles get_candidate_properties
       chat_completion self target max_results = Ok results).
Proof.
  split.
  - intros results H.
    apply (find_comparables_invariant great_circle_miles
             get_candidate_properties chat_completion self target _
             max_results results
             above_threshold_of_ai above_threshold_of_traditional H).
  - apply find_comparables_returns.
Qed.

(** C2: when every call to the language-model service fails,
    [find_comparables] gives exactly what deterministic scoring of all the
    candidates, sorted and truncated, gives. *)
Theorem failing_service_is_deterministic (max_results : Z) :
  always_failing chat_completion ->
  find_comparables great_circle_miles get_candidate_properties
    chat_completion self target max_results
  = deterministic_comparables great_circle_miles get_candidate_properties
      self target max_results.
Proof.
  intros Hfail. unfold find_comparables, deterministic_comparables.
  destruct (get_candidate_properties target) as [|c cs] eqn:Hc.
  - cbn. unfold slice_to. destruct (0 <=? max_results)%Z;
      now rewrite firstn_nil.
  - destruct (truthy_str (api_key self)); [|reflexivity].
    now rewrite (ai_score_candidates_failing great_circle_miles
                   chat_completion self target (c :: cs) Hfail).
Qed.

Lemma keys_of_ai :
  holds_of_ai great_circle_miles self target
    (fun c => keys (similarity_factors c) = ai_breakdown_keys).
Proof.
  intros candidate similarity confidence fs _ Hfs. cbn [similarity_factors].
  unfold calculate_detailed_similarity_factors in Hfs.
  apply bind_Ok in Hfs as [age_score [_ Hfs]]. injection Hfs as <-.
  reflexivity.
Qed.

Lemma keys_of_traditional :
  holds_of_traditional great_circle_miles self target
    (fun c => keys (similarity_factors c) = deterministic_breakdown_keys).
Proof.
  intros candidate s fs conf Hs _. cbn [similarity_factors].
  unfold calculate_similarity in Hs.
  apply bind_Ok in Hs as [age_score [_ Hs]]. injection Hs as _ <- _.
  reflexivity.
Qed.

(** C10: a comparable appended by the loop over the parsed scores has a
    breakdown whose keys are location, size, age, zoning and value, without
    "sale_price"; one appended by the deterministic loop has these and
    "sale_price".  So every element of what [traditional_score_candidates]
    returns has the six keys, and when every batch is answered with
    well-typed scores every element of what [ai_score_candidates] returns has
    the five. *)
Theorem breakdown_keys_differ (candidates : list PropertyResponse) :
  holds_of_ai great_circle_miles self target
    (fun c => keys (similarity_factors c) = ai_breakdown_keys) /\
  holds_of_traditional great_circle_miles self target
    (fun c => keys (similarity_factors c) = deterministic_breakdown_keys) /\
  (~ In "sale_price"%string ai_breakdown_keys /\
   deterministic_breakdown_keys = ai_breakdown_keys ++ ["sale_price"%string]) /\
  (forall l,
     traditional_score_candidates great_circle_miles self target candidates
     = Ok l ->
     Forall (fun c => keys (similarity_factors c)
                      = deterministic_breakdown_keys) l) /\
  (age_tolerance_years (factors self) <> 0%Z ->
   always_answering chat_completion ->
   exists l,
     ai_score_candidates great_circle_miles chat_completion self target
       candidates = Ok l /\
     Forall (fun c => keys (similarity_factors c) = ai_breakdown_keys) l).
Proof.
  split; [apply keys_of_ai|]. split; [apply keys_of_traditional|].
  split; [|split].
  - split; [|reflexivity].
    unfold ai_breakdown_keys. cbn [In].
    intros H. repeat (destruct H as [H|H]; [discriminate H|]). exact H.
  - intros l Hl.
    apply (traditional_loop_invariant great_circle_miles self target _
             candidates [] l keys_of_traditional (Forall_nil _) Hl).
  - intros Htol Hans. unfold ai_score_candidates.
    apply (ai_batches_answering great_circle_miles chat_completion self target
             _ candidates Htol Hans keys_of_ai).
    constructor.
Qed.

End Results.

Lemma find_comparables_filtered_sorted_bounded_witness :
  exists results,
    find_comparables no_distance store approves (init "sk") chicago_target
      max_results_default = Ok results /\
    (Z.of_nat (List.length results) <= max_results_default)%Z.
Proof.
  destruct (find_comparables_filtered_sorted_bounded
              no_distance store approves (init "sk") chicago_target
              max_results_default)
    as [Hprop Hreturns].
  destruct Hreturns as [results Hr]; [discriminate|].
  exists results. split; [exact Hr|].
  destruct (Hprop results Hr) as [_ [_ Hlen]]. apply Hlen. discriminate.
Defined.

Lemma failing_service_is_deterministic_witness :
  find_comparables no_distance store always_fails (init "sk") chicago_target
    max_results_default
  = deterministic_comparables no_distance store (init "sk") chicago_target
      max_results_default.
Proof.
  apply (failing_service_is_deterministic
           no_distance store always_fails (init "sk") chicago_target
           max_results_default).
  intros k. reflexivity.
Defined.

Lemma breakdown_keys_differ_witness :
  exists l,
    ai_score_candidates no_distance approves (init "sk") chicago_target
      (store chicago_target) = Ok l /\
    Forall (fun c => keys (similarity_factors c) = ai_breakdown_keys) l.
Proof.
  destruct (breakdown_keys_differ no_distance approves (init "sk")
              chicago_target (store chicago_target))
    as [_ [_ [_ [_ Hai]]]].
  apply Hai.
  - discriminate.
  - intros k. eexists. split; reflexivity.
Defined.

(* ===================================================================== *)
(** * Further properties of the scorers *)
(* ===================================================================== *)

Section MoreScorerFacts.

(** The location scorer does not depend on which parcel is the target. *)
Theorem location_symmetric (a b : PropertyResponse) :
  calculate_location_similarity a b = calculate_location_similarity b a.
Proof.
  unfold calculate_location_similarity.
  rewrite (String.eqb_sym (lower (city a))), (String.eqb_sym (county_id a)).
  reflexivity.
Qed.

(** Neither does the zoning scorer. *)
Theorem zoning_symmetric (a b : PropertyResponse) :
  calculate_zoning_similarity a b = calculate_zoning_similarity b a.
Proof.
  unfold calculate_zoning_similarity.
  destruct (zoning_code a) as [x|], (zoning_code b) as [y|]; try reflexivity.
  rewrite (orb_comm (negb (truthy_str y))).
  destruct (_ || _); [reflexivity|]. cbv zeta.
  rewrite (String.eqb_sym (upper y)).
  rewrite (andb_comm (set_in (upper y) industrial_codes)).
  rewrite (andb_comm (str_in "INDUSTRIAL" (upper y))).
  rewrite (andb_comm (str_in "MANUFACTURING" (upper y))).
  rewrite (andb_comm (str_in "WAREHOUSE" (upper y))).
  reflexivity.
Qed.

Lemma upper_truthy (a b : string) :
  upper a = upper b -> truthy_str a = truthy_str b.
Proof. destruct a, b; simpl; intros H; try reflexivity; discriminate. Qed.

(** The zoning scorer reads the codes up to letter case: a code may be
    replaced by one with the same upper-case form, and two non-empty codes
    with the same upper-case form score 1.0. *)
Theorem zoning_ignores_case (target target' candidate : PropertyResponse)
    (code code' : string) :
  zoning_code target = Some code -> zoning_code target' = Some code' ->
  upper code = upper code' ->
  calculate_zoning_similarity target candidate
  = calculate_zoning_similarity target' candidate /\
  (code <> EmptyString -> calculate_zoning_similarity target target' = 1.0).
Proof.
  intros Ht Ht' Hup. pose proof (upper_truthy _ _ Hup) as Htr. split.
  - unfold calculate_zoning_similarity. rewrite Ht, Ht'.
    destruct (zoning_code candidate) as [cz|]; [|reflexivity].
    rewrite Htr, Hup. reflexivity.
  - intros Hne. unfold calculate_zoning_similarity. rewrite Ht, Ht'.
    rewrite <- Htr, <- Hup, String.eqb_refl.
    destruct code; [contradiction|reflexivity].
Qed.

(** The rule of the two price scorers is symmetric in the two prices. *)
Lemma price_rule_symmetric (x y tolerance : Q) :
  (if Qeq_bool (Qmax x y) 0 then 0.0
   else if Qgeb (Qmin x y / Qmax x y) (1 - tolerance) then 1.0
        else Qmax 0.0 (Qmin x y / Qmax x y))
  == (if Qeq_bool (Qmax y x) 0 then 0.0
      else if Qgeb (Qmin y x / Qmax y x) (1 - tolerance) then 1.0
           else Qmax 0.0 (Qmin y x / Qmax y x)).
Proof.
  pose proof (Q.max_comm x y) as Hmax. pose proof (Q.min_comm x y) as Hmin.
  rewrite <- (Qeqb_comp _ _ Hmax 0 0 (Qeq_refl 0)).
  destruct (Qeq_bool (Qmax x y) 0); [reflexivity|].
  assert (Hr : Qmin x y / Qmax x y == Qmin y x / Qmax y x)
    by (rewrite Hmax, Hmin; reflexivity).
  unfold Qgeb.
  rewrite <- (Qleb_comp _ _ (Qeq_refl (1 - tolerance)) _ _ Hr).
  destruct (Qle_bool _ _); [reflexivity|].
  rewrite Hr. reflexivity.
Qed.

(** The assessed-value scorer and the sale-price scorer give the same score
    whichever parcel is the target. *)
Theorem price_scorers_symmetric (self : t) (a b : PropertyResponse) :
  calculate_value_similarity self a b == calculate_value_similarity self b a /\
  calculate_sale_price_similarity a b == calculate_sale_price_similarity b a.
Proof.
  split.
  - unfold calculate_value_similarity.
    destruct (assessed_value a) as [x|], (assessed_value b) as [y|];
      try reflexivity.
    rewrite (orb_comm (negb (truthy_float (Some y)))).
    destruct (_ || _); [reflexivity|]. cbv zeta. apply price_rule_symmetric.
  - unfold calculate_sale_price_similarity.
    destruct (sale_price a) as [x|], (sale_price b) as [y|]; try reflexivity.
    rewrite (orb_comm (negb (truthy_float (Some y)))).
    destruct (_ || _); [reflexivity|]. cbv zeta. apply price_rule_symmetric.
Qed.

(** No pair of parcels has a size score from 0.25 up to, but not including,
    0.5: a ratio under one half is halved. *)
Theorem size_score_gap (target candidate : PropertyResponse) :
  calculate_size_similarity target candidate < 0.25 \/
  0.5 <= calculate_size_similarity target candidate.
Proof.
  unfold calculate_size_similarity.
  destruct (building_area target) as [ta|]; [|left; lra].
  destruct (building_area candidate) as [ca|]; [|left; lra].
  destruct (_ || _); [left; lra|]. cbv zeta.
  destruct (Qeq_bool _ 0); [left; lra|].
  destruct (Qgeb _ 0.5) eqn:E.
  - right. apply Qgeb_true in E. exact E.
  - left. apply Qgeb_false in E. lra.
Qed.

(** The age scorer does not depend on which parcel is the target. *)
Theorem age_symmetric (self : t) (a b : PropertyResponse) :
  calculate_age_similarity self a b = calculate_age_similarity self b a.
Proof.
  unfold calculate_age_similarity.
  destruct (year_built a) as [x|], (year_built b) as [y|]; try reflexivity.
  rewrite (orb_comm (negb (truthy_int (Some y)))).
  replace (Z.abs (y - x)) with (Z.abs (x - y)) by lia.
  reflexivity.
Qed.

(** The age score as a function of the year difference. *)
Lemma age_score_of_difference (self : t) (target candidate : PropertyResponse)
    (ty cy : Z) :
  has_year_built target ty -> has_year_built candidate cy ->
  (0 < age_tolerance_years (factors self))%Z ->
  let tol := inject_Z (age_tolerance_years (factors self)) in
  let d := inject_Z (Z.abs (ty - cy)) in
  exists score,
    calculate_age_similarity self target candidate = Ok score /\
    0 <= score /\
    (d <= tol -> score == 1 - d / tol * 0.5) /\
    (tol < d -> score == Qmax 0 (0.5 - (d - tol) / (2 * tol))).
Proof.
  intros [Ht Hty] [Hc Hcy] Htol tol d.
  unfold calculate_age_similarity, truediv. rewrite Ht, Hc.
  apply truthy_int_Some in Hty, Hcy. rewrite Hty, Hcy. simpl orb. cbv zeta.
  assert (Hq : ~ tol == 0) by (apply inject_Z_nonzero; lia).
  assert (Hpos : 0 < tol) by (apply inject_Z_pos, Htol).
  assert (Hd0 : 0 <= d) by (apply inject_Z_nonneg; lia).
  assert (H1 : Qeq_bool tol 0 = false) by (apply Qeq_bool_false, Hq).
  assert (H2 : Qeq_bool (inject_Z (age_tolerance_years (factors self) * 2)) 0
               = false).
  { apply Qeq_bool_false, inject_Z_nonzero. lia. }
  fold tol. rewrite H1, H2. simpl bind. fold d.
  destruct (_ <=? _)%Z eqn:E.
  - apply Z.leb_le in E. apply inject_Z_le in E. fold d tol in E.
    eexists. split; [reflexivity|].
    assert (Hr : in_unit (d / tol)) by (apply ratio_in_unit; assumption).
    destruct Hr as [Hlo Hhi].
    split; [lra|]. split; [intros _; ring|].
    intros Hlt. exfalso. apply (Qlt_not_le _ _ Hlt E).
  - apply Z.leb_gt in E. rewrite Zlt_Qlt in E. fold d tol in E.
    eexists. split; [reflexivity|].
    split; [eapply Qle_trans; [|apply Q.le_max_l]; lra|].
    split; [intros Hle; exfalso; apply (Qlt_not_le _ _ E Hle)|].
    intros _.
    assert (Hr : inject_Z (Z.abs (ty - cy) - age_tolerance_years (factors self))
                 / inject_Z (age_tolerance_years (factors self) * 2)
                 == (d - tol) / (2 * tol)).
    { unfold Z.sub at 1. rewrite inject_Z_plus, inject_Z_opp, inject_Z_mult.
      unfold d, tol. field. exact Hq. }
    rewrite Hr. apply Q.max_compat; reflexivity.
Qed.

(** A candidate whose year built is further from the target's never has
    the higher age score. *)
Theorem age_score_monotone (self : t)
    (target near far : PropertyResponse) (ty ny fy : Z) :
  has_year_built target ty -> has_year_built near ny ->
  has_year_built far fy ->
  (0 < age_tolerance_years (factors self))%Z ->
  (Z.abs (ty - ny) <= Z.abs (ty - fy))%Z ->
  exists near_score far_score,
    calculate_age_similarity self target near = Ok near_score /\
    calculate_age_similarity self target far = Ok far_score /\
    far_score <= near_score.
Proof.
  intros Ht Hn Hf Htol Hle.
  destruct (age_score_of_difference self target near ty ny Ht Hn Htol)
    as [s1 [Hs1 [_ [Hin1 Hout1]]]].
  destruct (age_score_of_difference self target far ty fy Ht Hf Htol)
    as [s2 [Hs2 [Hnn2 [Hin2 Hout2]]]].
  exists s1, s2. split; [exact Hs1|]. split; [exact Hs2|].
  apply inject_Z_le in Hle.
  set (tol := inject_Z (age_tolerance_years (factors self))) in *.
  set (d1 := inject_Z (Z.abs (ty - ny))) in *.
  set (d2 := inject_Z (Z.abs (ty - fy))) in *.
  assert (Hpos : 0 < tol) by (apply inject_Z_pos, Htol).
  assert (Hd1 : 0 <= d1) by (apply inject_Z_nonneg; lia).
  assert (Hdiv : forall x y, x <= y -> x / tol <= y / tol).
  { intros x y Hxy. unfold Qdiv. apply Qmult_le_compat_r; [exact Hxy|].
    apply Qlt_le_weak, Qinv_lt_0_compat, Hpos. }
  destruct (Qlt_le_dec tol d2) as [Hfar|Hfar].
  - rewrite (Hout2 Hfar).
    destruct (Qlt_le_dec tol d1) as [Hnear|Hnear].
    + rewrite (Hout1 Hnear). apply Q.max_le_compat_l.
      assert (H2tol : 0 < 2 * tol) by lra.
      assert ((d1 - tol) / (2 * tol) <= (d2 - tol) / (2 * tol)).
      { unfold Qdiv. apply Qmult_le_compat_r; [lra|].
        apply Qlt_le_weak, Qinv_lt_0_compat, H2tol. }
      lra.
    + rewrite (Hin1 Hnear).
      assert (Hr : in_unit (d1 / tol)) by (apply ratio_in_unit; assumption).
      destruct Hr as [_ Hhi].
      apply Q.max_lub; [lra|].
      assert (0 <= (d2 - tol) / (2 * tol)).
      { apply Qle_shift_div_l; lra. }
      lra.
  - assert (Hnear : d1 <= tol) by (eapply Qle_trans; eassumption).
    rewrite (Hin1 Hnear), (Hin2 Hfar).
    pose proof (Hdiv d1 d2 Hle). lra.
Qed.

End MoreScorerFacts.

(* ===================================================================== *)
(** * Errors, bounds and the distance estimate *)
(* ===================================================================== *)

Section ErrorsAndBounds.

Variable great_circle_miles : Q -> Q -> Q -> Q -> Q.

Lemma age_raises_zero_division (self : t) (target candidate : PropertyResponse)
    (e : exception) :
  calculate_age_similarity self target candidate = Raise e ->
  e = ZeroDivisionError.
Proof.
  unfold calculate_age_similarity, truediv.
  destruct (year_built target) as [ty|]; [|discriminate].
  destruct (year_built candidate) as [cy|]; [|discriminate].
  destruct (_ || _); [discriminate|]. cbv zeta.
  destruct (_ <=? _)%Z; destruct (Qeq_bool _ 0); simpl;
    intros H; try discriminate; injection H as <-; reflexivity.
Qed.

Lemma similarity_raises_zero_division (self : t)
    (target candidate : PropertyResponse) (e : exception) :
  calculate_similarity self target candidate = Raise e ->
  e = ZeroDivisionError.
Proof.
  unfold calculate_similarity.
  destruct (calculate_age_similarity self target candidate) as [a|e'] eqn:Ha;
    simpl; [discriminate|].
  intros H; injection H as <-. apply (age_raises_zero_division _ _ _ _ Ha).
Qed.

Lemma age_with_zero_tolerance (self : t) (target candidate : PropertyResponse)
    (ty cy : Z) :
  age_tolerance_years (factors self) = 0%Z ->
  has_year_built target ty -> has_year_built candidate cy ->
  calculate_age_similarity self target candidate = Raise ZeroDivisionError.
Proof.
  intros Htol [Ht Hty] [Hc Hcy].
  unfold calculate_age_similarity, truediv. rewrite Ht, Hc, Htol.
  apply truthy_int_Some in Hty, Hcy. rewrite Hty, Hcy. simpl orb. cbv zeta.
  destruct (_ <=? _)%Z; reflexivity.
Qed.

(** With an age tolerance of zero the age scorer raises
    [ZeroDivisionError] on two parcels that have a year built, and one such
    candidate, other than the target, makes the deterministic scoring of a
    whole candidate list raise it. *)
Theorem zero_tolerance_raises (self : t) (target : PropertyResponse) (ty : Z)
    (candidates : list PropertyResponse) (candidate : PropertyResponse)
    (cy : Z) :
  age_tolerance_years (factors self) = 0%Z ->
  has_year_built target ty -> has_year_built candidate cy ->
  In candidate candidates -> id candidate <> id target ->
  calculate_age_similarity self target candidate = Raise ZeroDivisionError /\
  traditional_score_candidates great_circle_miles self target candidates
  = Raise ZeroDivisionError.
Proof.
  intros Htol Ht Hc Hin Hid.
  pose proof (age_with_zero_tolerance self target candidate ty cy Htol Ht Hc)
    as Hage.
  split; [exact Hage|].
  unfold traditional_score_candidates. generalize (@nil ComparableProperty).
  induction candidates as [|c rest IH]; intros scored; [destruct Hin|].
  cbn [traditional_loop].
  destruct Hin as [->|Hin].
  - apply String.eqb_neq in Hid. rewrite Hid.
    unfold calculate_similarity. rewrite Hage. reflexivity.
  - destruct (String.eqb (id c) (id target)); [apply IH, Hin|].
    destruct (calculate_similarity self target c) as [[[s fs] conf]|e] eqn:Hs.
    + cbn [bind]. destruct (Qgtb s 0.3); apply IH, Hin.
    + cbn [bind]. f_equal.
      apply (similarity_raises_zero_division _ _ _ _ Hs).
Qed.

(** A weighted sum of scores of the unit interval, for weights that are not
    negative and sum to one. *)
Lemma weighted_mean_in_unit (s1 s2 s3 s4 s5 s6 w1 w2 w3 w4 w5 w6 : Q) :
  in_unit s1 -> in_unit s2 -> in_unit s3 -> in_unit s4 -> in_unit s5 ->
  in_unit s6 ->
  0 <= w1 -> 0 <= w2 -> 0 <= w3 -> 0 <= w4 -> 0 <= w5 -> 0 <= w6 ->
  w1 + w2 + w3 + w4 + w5 + w6 == 1 ->
  in_unit (s1 * w1 + s2 * w2 + s3 * w3 + s4 * w4 + s5 * w5 + s6 * w6).
Proof.
  intros [L1 U1] [L2 U2] [L3 U3] [L4 U4] [L5 U5] [L6 U6] ? ? ? ? ? ? Hsum.
  assert (B : forall s w, 0 <= s -> s <= 1 -> 0 <= w -> 0 <= s * w /\ s * w <= w).
  { intros s w Hs0 Hs1 Hw. split.
    - apply Qmult_le_0_compat; assumption.
    - rewrite <- (Qmult_1_l w) at 2. apply Qmult_le_compat_r; assumption. }
  destruct (B s1 w1) as [? ?]; try assumption.
  destruct (B s2 w2) as [? ?]; try assumption.
  destruct (B s3 w3) as [? ?]; try assumption.
  destruct (B s4 w4) as [? ?]; try assumption.
  destruct (B s5 w5) as [? ?]; try assumption.
  destruct (B s6 w6) as [? ?]; try assumption.
  unfold in_unit. split; lra.
Qed.

(** Under a sound configuration (the default one is) the overall similarity
    of two parcels without a negative building area is computed and lies
    between 0 and 1. *)
Theorem similarity_in_unit (self : t) (target candidate : PropertyResponse) :
  sound_configuration (factors self) ->
  no_negative_area target -> no_negative_area candidate ->
  exists score breakdown confidence,
    calculate_similarity self target candidate
    = Ok (score, breakdown, confidence) /\
    in_unit score.
Proof.
  intros [Hw1 [Hw2 [Hw3 [Hw4 [Hw5 [Hw6 [Hsum [Hage Hval]]]]]]]] Ht Hc.
  assert (Htol : age_tolerance_years (factors self) <> 0%Z) by lia.
  destruct (age_returns self target candidate Htol) as [a Ha].
  unfold calculate_similarity. rewrite Ha. cbn [bind].
  do 3 eexists. split; [reflexivity|].
  apply weighted_mean_in_unit; try assumption.
  - apply location_in_unit.
  - apply size_in_unit; assumption.
  - apply (age_in_unit self target candidate a Hage Ha).
  - apply zoning_in_unit.
  - apply value_in_unit, Hval.
  - apply sale_price_in_unit.
Qed.

(** The confidence does not depend on which parcel is the target, and it
    never exceeds 1. *)
Theorem confidence_symmetric_and_capped (a b : PropertyResponse) :
  calculate_confidence_score a b == calculate_confidence_score b a /\
  calculate_confidence_score a b <= 1.
Proof.
  split.
  - rewrite !confidence_formula.
    apply Q.min_compat; [reflexivity|].
    unfold pair_completeness, counted_pair_quality. field.
  - rewrite confidence_formula. apply Q.le_min_l.
Qed.

Lemma filter_all (l : list bool) :
  List.length (filter (fun b => b) l) = List.length l <->
  Forall (fun b => b = true) l.
Proof.
  induction l as [|b l IH]; simpl.
  - split; [constructor | reflexivity].
  - destruct b; simpl.
    + rewrite Forall_cons_iff. split.
      * intros H. split; [reflexivity|]. apply IH. lia.
      * intros [_ H]. f_equal. apply IH, H.
    + pose proof (filter_length_le (fun b : bool => b) l) as Hle. split.
      * intros H. lia.
      * intros H. inversion H; discriminate.
Qed.

Lemma filter_none (l : list bool) :
  List.length (filter (fun b => b) l) = 0%nat <->
  Forall (fun b => b = false) l.
Proof.
  induction l as [|b l IH]; simpl.
  - split; [constructor | reflexivity].
  - destruct b; simpl.
    + split; [discriminate|]. intros H. inversion H; discriminate.
    + rewrite Forall_cons_iff. split.
      * intros H. split; [reflexivity|]. apply IH, H.
      * intros [_ H]. apply IH, H.
Qed.

Lemma count_over_eleven (n : nat) :
  (inject_Z (Z.of_nat n) / inject_Z 11 == 1 <-> n = 11%nat) /\
  (inject_Z (Z.of_nat n) / inject_Z 11 == 0 <-> n = 0%nat).
Proof.
  assert (E : inject_Z (Z.of_nat n) / inject_Z 11 == Z.of_nat n # 11).
  { rewrite (Qmake_Qdiv (Z.of_nat n) 11). reflexivity. }
  rewrite E. unfold Qeq. simpl. split; split; intros H; lia.
Qed.

(** The completeness of a record is 1 exactly when each of the eleven fields
    is populated, and 0 exactly when none is. *)
Theorem completeness_extremes (prop : PropertyResponse) :
  (calculate_data_completeness prop == 1 <-> fully_populated prop) /\
  (calculate_data_completeness prop == 0 <-> nothing_populated prop).
Proof.
  rewrite data_completeness_is_ratio. unfold completeness.
  change (List.length (populated_fields prop)) with 11%nat.
  change (Z.of_nat 11) with 11%Z.
  destruct (count_over_eleven
              (List.length (filter (fun b => b) (populated_fields prop))))
    as [H1 H0].
  split.
  - rewrite H1. change 11%nat with (List.length (populated_fields prop)).
    apply filter_all.
  - rewrite H0. apply filter_none.
Qed.

Lemma distance_without_coordinates (target candidate : PropertyResponse) :
  coordinates_known target candidate = false ->
  calculate_distance great_circle_miles target candidate
  = if String.eqb (lower (city target)) (lower (city candidate)) then 5.0
    else if String.eqb (county_id target) (county_id candidate) then 25.0
    else 100.0.
Proof.
  unfold coordinates_known, calculate_distance.
  destruct (latitude target) as [lat1|]; [|reflexivity].
  destruct (longitude target) as [lon1|]; [|reflexivity].
  destruct (latitude candidate) as [lat2|]; [|reflexivity].
  destruct (longitude candidate) as [lon2|]; [|reflexivity].
  intros H. rewrite H. reflexivity.
Qed.

(** When a coordinate of either parcel is missing or zero the distance is an
    estimate tied to the location score: 5 miles with a location score of
    1.0 (same city), 25 miles with 0.8 (same county), 100 miles with 0.3; and
    the estimate is the same in both directions. *)
Theorem distance_estimate_follows_location (target candidate : PropertyResponse) :
  coordinates_known target candidate = false ->
  let distance := calculate_distance great_circle_miles target candidate in
  let location := calculate_location_similarity target candidate in
  ((distance = 5.0 /\ location = 1.0) \/
   (distance = 25.0 /\ location = 0.8) \/
   (distance = 100.0 /\ location = 0.3)) /\
  calculate_distance great_circle_miles candidate target = distance.
Proof.
  intros Hc distance location. unfold distance, location.
  rewrite (distance_without_coordinates _ _ Hc).
  assert (Hc' : coordinates_known candidate target = false).
  { unfold coordinates_known in *.
    destruct (truthy_float (latitude target)),
             (truthy_float (longitude target)),
             (truthy_float (latitude candidate)),
             (truthy_float (longitude candidate)); simpl in *; congruence. }
  rewrite (distance_without_coordinates _ _ Hc').
  unfold calculate_location_similarity.
  rewrite (String.eqb_sym (lower (city candidate))),
          (String.eqb_sym (county_id candidate)).
  split; [|reflexivity].
  destruct (String.eqb _ _); [auto|].
  destruct (String.eqb _ _); auto.
Qed.

End ErrorsAndBounds.

(* ===================================================================== *)
(** * What the scoring loops return *)
(* ===================================================================== *)

Section LoopResults.

Variable great_circle_miles : Q -> Q -> Q -> Q -> Q.
Variable chat_completion : nat -> completion.
Variable self : t.
Variable target : PropertyResponse.

Lemma traditional_loop_properties (candidates : list PropertyResponse)
    (scored l : list ComparableProperty) :
  traditional_loop great_circle_miles self target candidates scored = Ok l ->
  map property_ l
  = map property_ scored ++ filter (qualifies self target) candidates.
Proof.
  revert scored. induction candidates as [|c rest IH]; intros scored;
    cbn [traditional_loop filter].
  - intros H; injection H as <-. now rewrite app_nil_r.
  - unfold qualifies at 1.
    destruct (String.eqb (id c) (id target)); cbn [negb andb]; [apply IH|].
    destruct (calculate_similarity self target c) as [[[s fs] conf]|e];
      [|discriminate].
    cbn [bind]. destruct (Qgtb s 0.3).
    + intros H. rewrite (IH _ H), map_app, <- app_assoc. reflexivity.
    + apply IH.
Qed.

(** The properties of the comparables [traditional_score_candidates]
    returns are the candidates that qualify (not the target, similarity
    above 0.3), in the order of the candidates. *)
Theorem traditional_keeps_qualifying_in_order
    (candidates : list PropertyResponse) (l : list ComparableProperty) :
  traditional_score_candidates great_circle_miles self target candidates
  = Ok l ->
  map property_ l = filter (qualifies self target) candidates.
Proof.
  intros H. apply (traditional_loop_properties candidates [] l H).
Qed.

Lemma scored_deterministically_incl (pool pool' : list PropertyResponse)
    (c : ComparableProperty) :
  incl pool pool' ->
  scored_deterministically great_circle_miles self target pool c ->
  scored_deterministically great_circle_miles self target pool' c.
Proof.
  intros Hincl [Hin H]. split; [apply Hincl, Hin | exact H].
Qed.

Lemma traditional_loop_provenance (pool candidates : list PropertyResponse)
    (scored l : list ComparableProperty) :
  incl candidates pool ->
  Forall (scored_deterministically great_circle_miles self target pool) scored ->
  traditional_loop great_circle_miles self target candidates scored = Ok l ->
  Forall (scored_deterministically great_circle_miles self target pool) l.
Proof.
  revert scored. induction candidates as [|c rest IH]; intros scored Hincl Hacc;
    cbn [traditional_loop].
  - intros H; injection H as <-. exact Hacc.
  - assert (Hrest : incl rest pool)
      by (intros x Hx; apply Hincl; right; exact Hx).
    destruct (String.eqb (id c) (id target)) eqn:Hid; [apply IH; assumption|].
    destruct (calculate_similarity self target c) as [[[s fs] conf]|e] eqn:Hs;
      [|discriminate].
    cbn [bind]. destruct (Qgtb s 0.3) eqn:Hgt; [|apply IH; assumption].
    apply IH; [exact Hrest|]. apply Forall_app. split; [exact Hacc|].
    constructor; [|constructor].
    unfold scored_deterministically. cbn.
    split; [apply Hincl; left; reflexivity|].
    split; [apply String.eqb_neq, Hid|].
    split; [exact Hs|]. split; [apply Qgtb_true, Hgt | reflexivity].
Qed.

Lemma weighted_sum_of_similarity (candidate : PropertyResponse)
    (score : Q) (breakdown : dict Q) (confidence : Q) :
  calculate_similarity self target candidate = Ok (score, breakdown, confidence) ->
  score == weighted_sum breakdown (factor_weights (factors self)).
Proof.
  unfold calculate_similarity. intros H.
  apply bind_Ok in H as [a [_ H]]. injection H as <- <- _.
  unfold weighted_sum, factor_weights. simpl. ring.
Qed.

(** Every comparable [traditional_score_candidates] returns is built from
    one of the candidates, never the target: its score, breakdown and
    confidence are those [calculate_similarity] computes for that candidate,
    its distance is the one [calculate_distance] computes, and its score is
    the weighted sum of its own breakdown. *)
Theorem traditional_results_explained
    (candidates : list PropertyResponse) (l : list ComparableProperty) :
  traditional_score_candidates great_circle_miles self target candidates
  = Ok l ->
  Forall (fun c =>
            scored_deterministically great_circle_miles self target candidates c
            /\ similarity_score c
               == weighted_sum (similarity_factors c)
                    (factor_weights (factors self))) l.
Proof.
  intros H.
  pose proof (traditional_loop_provenance candidates candidates [] l
                (incl_refl _) (Forall_nil _) H) as Hp.
  eapply Forall_impl; [|exact Hp].
  intros c Hc. split; [exact Hc|].
  destruct Hc as [_ [_ [Hs _]]].
  apply (weighted_sum_of_similarity _ _ _ _ Hs).
Qed.

Lemma find_candidate_in (cid : option string) (batch : list PropertyResponse)
    (c : PropertyResponse) :
  find_candidate cid batch = Some c -> In c batch.
Proof.
  unfold find_candidate. destruct cid as [s|]; [|discriminate].
  intros H. apply find_some in H. apply H.
Qed.

Lemma find_candidate_id (cid : option string) (batch : list PropertyResponse)
    (c : PropertyResponse) :
  find_candidate cid batch = Some c -> cid = Some (id c).
Proof.
  unfold find_candidate. destruct cid as [s|]; [|discriminate].
  intros H. apply find_some in H as [_ H]. apply String.eqb_eq in H.
  now rewrite H.
Qed.

Lemma ai_scores_loop_provenance (P : ComparableProperty -> Prop)
    (pool batch : list PropertyResponse) (k : nat)
    (reply ai_scores : list score_data) (scored : list ComparableProperty) :
  (forall c,
     scored_by_service great_circle_miles chat_completion self target pool c ->
     P c) ->
  chat_completion k = Parsed reply -> incl ai_scores reply ->
  incl batch pool -> Forall P scored ->
  Forall P (fst (ai_scores_loop great_circle_miles self target batch
                   ai_scores scored)).
Proof.
  intros HP Hreply Hsub Hincl. revert scored.
  induction ai_scores as [|d rest IH]; intros scored Hacc;
    cbn [ai_scores_loop].
  - exact Hacc.
  - assert (Hrest : incl rest reply)
      by (intros x Hx; apply Hsub; right; exact Hx).
    specialize (IH Hrest).
    destruct d as [cid sim conf|]; [|exact Hacc].
    destruct (find_candidate cid batch) as [c|] eqn:Hf; [|apply IH, Hacc].
    destruct (Qgtb sim 0.3) eqn:Hgt; [|apply IH, Hacc].
    destruct (calculate_detailed_similarity_factors self target c) as [fs|e]
      eqn:Hfs; [|exact Hacc].
    apply IH. apply Forall_app. split; [exact Hacc|].
    constructor; [|constructor]. apply HP.
    unfold scored_by_service. cbn.
    split; [apply Hincl, (find_candidate_in _ _ _ Hf)|].
    split; [apply Qgtb_true, Hgt|].
    split; [|split; [exact Hfs | reflexivity]].
    exists k, reply. split; [exact Hreply|].
    rewrite <- (find_candidate_id _ _ _ Hf). apply Hsub. left. reflexivity.
Qed.

Lemma slice_incl {A : Type} (l : list A) (i j : nat) : incl (slice l i j) l.
Proof.
  unfold slice. intros x Hx.
  rewrite <- (firstn_skipn i l). apply in_or_app. right.
  rewrite <- (firstn_skipn (j - i) (skipn i l)). apply in_or_app. left.
  exact Hx.
Qed.

Lemma ai_batches_loop_provenance (candidates : list PropertyResponse)
    (starts : list nat) (scored l : list ComparableProperty) :
  let P := fun c =>
    scored_by_service great_circle_miles chat_completion self target
      candidates c \/
    scored_deterministically great_circle_miles self target candidates c in
  Forall P scored ->
  ai_batches_loop great_circle_miles chat_completion self target candidates
    starts scored = Ok l ->
  Forall P l.
Proof.
  intros P. revert scored l.
  induction starts as [|i rest IH]; intros scored l Hacc;
    cbn [ai_batches_loop].
  - intros H; injection H as <-. exact Hacc.
  - intros H. apply bind_Ok in H as [scored' [Hb H]].
    apply (IH scored'); [|exact H]. clear H IH.
    unfold ai_score_batch in Hb.
    pose proof (slice_incl candidates i (i + batch_size)) as Hincl.
    assert (Hfb : forall acc r,
               Forall P acc ->
               (batch_scored <-
                  traditional_score_candidates great_circle_miles self target
                    (slice candidates i (i + batch_size)) ;;
                Ok (acc ++ batch_scored)) = Ok r -> Forall P r).
    { intros acc r Hf H. apply bind_Ok in H as [bs [Hbs H]].
      injection H as <-. apply Forall_app. split; [exact Hf|].
      pose proof (traditional_loop_provenance candidates _ [] bs Hincl
                    (Forall_nil _) Hbs) as Hp.
      eapply Forall_impl; [|exact Hp]. intros c Hc. right. exact Hc. }
    destruct (chat_completion (i / batch_size)) as [| |ai_scores] eqn:Hreply.
    + apply (Hfb _ _ Hacc Hb).
    + rewrite retry_same in Hb. apply (Hfb _ _ Hacc Hb).
    + pose proof (ai_scores_loop_provenance P candidates
                    (slice candidates i (i + batch_size)) (i / batch_size)
                    ai_scores ai_scores scored
                    (fun c Hc => or_introl Hc) Hreply (incl_refl _)
                    Hincl Hacc) as Hloop.
      destruct (ai_scores_loop _ _ _ _ _ _) as [acc [e|]]; cbn [fst] in Hloop.
      * apply (Hfb _ _ Hloop Hb).
      * injection Hb as <-. exact Hloop.
Qed.

(** Every comparable [ai_score_candidates] returns is built from one of the
    candidates, with a score above 0.3 and the distance [calculate_distance]
    computes.  Either its score and its confidence are those of an element of
    a reply of the service that names the candidate by its id, and the
    breakdown is the one [calculate_detailed_similarity_factors] computes, or
    the comparable is one deterministic scoring builds. *)
Theorem ai_results_explained
    (candidates : list PropertyResponse) (l : list ComparableProperty) :
  ai_score_candidates great_circle_miles chat_completion self target candidates
  = Ok l ->
  Forall (fun c =>
            scored_by_service great_circle_miles chat_completion self target
              candidates c \/
            scored_deterministically great_circle_miles self target candidates c)
    l.
Proof.
  unfold ai_score_candidates. intros H.
  apply (ai_batches_loop_provenance candidates
           (range_step (List.length candidates) batch_size) [] l).
  - constructor.
  - exact H.
Qed.

End LoopResults.

(* ===================================================================== *)
(** * Ranking *)
(* ===================================================================== *)

Section Ranking.

Variable A : Type.
Variable key : A -> Q.

Lemma insert_reverse_stable (v : Q) (x : A) (l : list A) :
  filter (fun a => Qeq_bool (key a) v) (insert_reverse key x l)
  = filter (fun a => Qeq_bool (key a) v) (x :: l).
Proof.
  induction l as [|y l IH]; [reflexivity|].
  cbn [insert_reverse].
  destruct (Qle_bool (key y) (key x)) eqn:E; [reflexivity|].
  cbn [filter] in *. rewrite IH.
  destruct (Qeq_bool (key x) v) eqn:Ex, (Qeq_bool (key y) v) eqn:Ey;
    try reflexivity.
  exfalso. apply Qeq_bool_eq in Ex, Ey.
  assert (Hle : key y <= key x) by (rewrite Ex, Ey; apply Qle_refl).
  apply Qle_bool_iff in Hle. congruence.
Qed.

(** The sort of [find_comparables] is stable: the elements with a given
    key stay in the order they had before the sort. *)
Theorem sort_reverse_stable (v : Q) (l : list A) :
  filter (fun a => Qeq_bool (key a) v) (sort_reverse key l)
  = filter (fun a => Qeq_bool (key a) v) l.
Proof.
  induction l as [|x l IH]; [reflexivity|].
  cbn [sort_reverse fold_right]. fold (sort_reverse key l).
  rewrite insert_reverse_stable. cbn [filter]. rewrite IH. reflexivity.
Qed.

Lemma sorted_app_order (R : A -> A -> Prop) (l1 l2 : list A) :
  StronglySorted R (l1 ++ l2) ->
  Forall (fun a => Forall (fun b => R a b) l2) l1.
Proof.
  induction l1 as [|a l1 IH]; cbn [app]; intros H; [constructor|].
  inversion H as [|? ? Hs Hall]; subst. constructor; [|apply IH, Hs].
  apply Forall_app in Hall. apply Hall.
Qed.

Lemma slice_to_is_firstn (l : list A) (k : Z) :
  exists n, slice_to l k = firstn n l /\
    ((0 <= k)%Z -> n = Z.to_nat k) /\
    ((k < 0)%Z -> n = (List.length l - Z.to_nat (- k))%nat).
Proof.
  unfold slice_to. destruct (0 <=? k)%Z eqn:E.
  - apply Z.leb_le in E. eexists. split; [reflexivity|]. split; [auto | lia].
  - apply Z.leb_gt in E. eexists. split; [reflexivity|]. split; [lia | auto].
Qed.

End Ranking.

Section BestResults.

Variable great_circle_miles : Q -> Q -> Q -> Q -> Q.
Variable get_candidate_properties : PropertyResponse -> list PropertyResponse.
Variable chat_completion : nat -> completion.
Variable self : t.
Variable target : PropertyResponse.

Lemma find_comparables_scoring (max_results : Z)
    (results : list ComparableProperty) :
  find_comparables great_circle_miles get_candidate_properties
    chat_completion self target max_results = Ok results ->
  exists scored,
    scoring great_circle_miles chat_completion self target
      (get_candidate_properties target) = Ok scored /\
    results = slice_to (sort_reverse similarity_score scored) max_results.
Proof.
  unfold find_comparables, scoring.
  destruct (get_candidate_properties target) as [|c cs].
  - intros H; injection H as <-. exists []. split.
    + destruct (truthy_str (api_key self)); reflexivity.
    + unfold slice_to. destruct (0 <=? max_results)%Z; now rewrite firstn_nil.
  - intros H. apply bind_Ok in H as [scored [Hs H]]. injection H as <-.
    exists scored. split; [exact Hs | reflexivity].
Qed.

(** What [find_comparables] returns is the best of what was scored: the
    results, with the comparables left out, are a permutation of the scored
    ones, and no comparable left out has a higher score than a result.  For
    a [max_results] that is not negative the number of results is the
    smaller of [max_results] and the number scored; a negative [max_results]
    leaves out that many of the lowest instead. *)
Theorem results_are_the_best (max_results : Z)
    (results : list ComparableProperty) :
  find_comparables great_circle_miles get_candidate_properties
    chat_completion self target max_results = Ok results ->
  exists scored left_out,
    scoring great_circle_miles chat_completion self target
      (get_candidate_properties target) = Ok scored /\
    Permutation (results ++ left_out) scored /\
    Forall (fun r =>
              Forall (fun x => similarity_score x <= similarity_score r)
                left_out) results /\
    ((0 <= max_results)%Z ->
     List.length results
     = Nat.min (Z.to_nat max_results) (List.length scored)) /\
    ((max_results < 0)%Z ->
     List.length results
     = (List.length scored - Z.to_nat (- max_results))%nat).
Proof.
  intros H. destruct (find_comparables_scoring max_results results H)
    as [scored [Hs ->]].
  destruct (slice_to_is_firstn _ (sort_reverse similarity_score scored)
              max_results) as [n [-> [Hpos Hneg]]].
  exists scored, (skipn n (sort_reverse similarity_score scored)).
  pose proof (sort_reverse_perm _ similarity_score scored) as Hperm.
  pose proof (Permutation_length Hperm) as Hlen.
  split; [exact Hs|]. split; [now rewrite firstn_skipn|]. split.
  - apply (sorted_app_order _ (key_ge similarity_score)).
    rewrite firstn_skipn. apply sort_reverse_sorted.
  - rewrite length_firstn, Hlen. split; intros Hk.
    + rewrite (Hpos Hk). reflexivity.
    + rewrite (Hneg Hk), Hlen. lia.
Qed.

End BestResults.

Section Duplicates.

Variable great_circle_miles : Q -> Q -> Q -> Q -> Q.
Variable chat_completion : nat -> completion.
Variable self : t.
Variable target : PropertyResponse.

Lemma ai_scores_loop_appends (batch : list PropertyResponse)
    (ai_scores : list score_data) (scored : list ComparableProperty) :
  exists appended,
    fst (ai_scores_loop great_circle_miles self target batch ai_scores scored)
    = scored ++ appended.
Proof.
  revert scored. induction ai_scores as [|d rest IH]; intros scored;
    cbn [ai_scores_loop].
  - exists []. now rewrite app_nil_r.
  - assert (Hsame : exists appended : list ComparableProperty,
               scored = scored ++ appended)
      by (exists []; now rewrite app_nil_r).
    destruct d as [cid sim conf|]; [|exact Hsame].
    destruct (find_candidate cid batch) as [c|]; [|apply IH].
    destruct (Qgtb sim 0.3); [|apply IH].
    destruct (calculate_detailed_similarity_factors self target c) as [fs|e];
      [|exact Hsame].
    destruct (IH (scored ++ [ {| property_ := c;
                                similarity_score := sim;
                                distance_miles :=
                                  Some (calculate_distance great_circle_miles
                                          target c);
                                similarity_factors := fs;
                                confidence_score := conf |} ]))
      as [appended Happ].
    eexists. rewrite Happ, <- app_assoc. reflexivity.
Qed.

Lemma ai_scores_loop_ill_typed (batch : list PropertyResponse)
    (ai_scores : list score_data) (scored : list ComparableProperty) :
  In IllTyped ai_scores ->
  snd (ai_scores_loop great_circle_miles self target batch ai_scores scored)
  <> None.
Proof.
  revert scored. induction ai_scores as [|d rest IH]; intros scored Hin;
    [destruct Hin|].
  cbn [ai_scores_loop].
  destruct d as [cid sim conf|]; [|discriminate].
  destruct Hin as [Hin|Hin]; [discriminate|].
  destruct (find_candidate cid batch) as [c|]; [|apply IH, Hin].
  destruct (Qgtb sim 0.3); [|apply IH, Hin].
  destruct (calculate_detailed_similarity_factors self target c) as [fs|e];
    [apply IH, Hin | discriminate].
Qed.

Lemma about_app (parcel_id : string) (l1 l2 : list ComparableProperty) :
  about parcel_id (l1 ++ l2) = about parcel_id l1 ++ about parcel_id l2.
Proof. apply filter_app. Qed.

Lemma about_member (c : ComparableProperty) (l : list ComparableProperty) :
  In c l -> (1 <= List.length (about (id (property_ c)) l))%nat.
Proof.
  intros Hin.
  assert (H : In c (about (id (property_ c)) l)).
  { apply filter_In. split; [exact Hin | apply String.eqb_refl]. }
  destruct (about (id (property_ c)) l); [destruct H | simpl; lia].
Qed.

(** One batch whose reply approves a candidate and then holds an element
    that is not well typed: the comparable already appended stays, the batch
    is scored again deterministically, and a candidate that qualifies there
    is in the result twice. *)
Theorem approved_then_ill_typed_duplicates
    (candidates : list PropertyResponse) (candidate : PropertyResponse)
    (similarity confidence : Q) (rest : list score_data) :
  age_tolerance_years (factors self) <> 0%Z ->
  (List.length candidates <= batch_size)%nat ->
  chat_completion 0%nat
  = Parsed (ScoreData (Some (id candidate)) similarity confidence :: rest) ->
  In IllTyped rest ->
  find_candidate (Some (id candidate)) candidates = Some candidate ->
  0.3 < similarity ->
  qualifies self target candidate = true ->
  exists l,
    ai_score_candidates great_circle_miles chat_completion self target
      candidates = Ok l /\
    (2 <= List.length (about (id candidate) l))%nat.
Proof.
  intros Htol Hlen Hchat Hill Hfind Hsim Hq.
  pose proof (find_candidate_in _ _ _ Hfind) as Hin.
  assert (Hstarts : range_step (List.length candidates) batch_size = [0%nat]).
  { unfold range_step, batch_size in *.
    destruct candidates as [|c0 cs]; [destruct Hin|]. cbn [List.length] in *.
    replace ((S (List.length cs) + 5 - 1) / 5)%nat with 1%nat; [reflexivity|].
    apply Nat.div_unique with (r := List.length cs); lia. }
  assert (Hbatch : slice candidates 0 (0 + batch_size) = candidates).
  { unfold slice. cbn [skipn]. apply firstn_all2. unfold batch_size in *. lia. }
  unfold ai_score_candidates. rewrite Hstarts.
  cbn [ai_batches_loop]. unfold ai_score_batch.
  rewrite Hbatch. change (0 / batch_size)%nat with 0%nat. rewrite Hchat.
  cbn [ai_scores_loop]. rewrite Hfind.
  apply Qgtb_true in Hsim. rewrite Hsim.
  destruct (detailed_factors_returns self target candidate Htol) as [fs Hfs].
  rewrite Hfs. cbn [app].
  set (approved := {| property_ := candidate;
                      similarity_score := similarity;
                      distance_miles :=
                        Some (calculate_distance great_circle_miles target
                                candidate);
                      similarity_factors := fs;
                      confidence_score := confidence |}).
  destruct (ai_scores_loop_appends candidates rest [approved])
    as [appended Happ].
  pose proof (ai_scores_loop_ill_typed candidates rest [approved] Hill)
    as Hexc.
  destruct (ai_scores_loop great_circle_miles self target candidates rest
              [approved]) as [scored [e|]]; cbn [fst snd] in *;
    [|contradiction].
  subst scored.
  destruct (traditional_loop_returns great_circle_miles self target
              candidates [] Htol) as [bs Hbs].
  unfold traditional_score_candidates. rewrite Hbs. cbn [bind].
  eexists. split; [reflexivity|].
  pose proof (traditional_loop_properties great_circle_miles self target
                candidates [] bs Hbs) as Hmap. cbn [map app] in Hmap.
  assert (Hc : In candidate (map property_ bs)).
  { rewrite Hmap. apply filter_In. split; assumption. }
  apply in_map_iff in Hc as [det [Hdet Hdin]].
  rewrite !about_app.
  rewrite !length_app.
  assert (H1 : (1 <= List.length (about (id candidate) [approved]))%nat).
  { apply (about_member approved). left. reflexivity. }
  assert (H2 : (1 <= List.length (about (id candidate) bs))%nat).
  { rewrite <- Hdet. apply about_member, Hdin. }
  lia.
Qed.

End Duplicates.

(* ===================================================================== *)
(** * The candidates read from the table *)
(* ===================================================================== *)

Section Candidates.

Variable table : list Db.Property.
Variable target : PropertyResponse.

Lemma to_response_fields (prop : Db.Property) (c : PropertyResponse) :
  Store.to_response prop = Some c ->
  id c = Db.id prop /\
  building_area c = Db.building_area prop /\
  Db.county_id prop = Some (county_id c).
Proof.
  unfold Store.to_response.
  destruct (Db.county_id prop), (Db.address prop), (Db.city prop),
           (Db.state prop), (Db.data_source prop), (Db.last_updated prop),
           (Db.is_verified prop); try discriminate.
  intros H; injection H as <-. repeat split; reflexivity.
Qed.

Lemma convert_all_rows (rows : list Db.Property)
    (candidates : list PropertyResponse) :
  Store.convert_all rows = Some candidates ->
  Forall2 (fun prop c => Store.to_response prop = Some c) rows candidates.
Proof.
  revert candidates. induction rows as [|prop rest IH]; intros candidates;
    cbn [Store.convert_all].
  - intros H; injection H as <-. constructor.
  - destruct (Store.to_response prop) as [c|] eqn:Hc; [|discriminate].
    destruct (Store.convert_all rest) as [cs|]; [|discriminate].
    intros H; injection H as <-. constructor; [exact Hc | apply IH; reflexivity].
Qed.

Lemma convert_all_app (rows1 rows2 : list Db.Property)
    (candidates : list PropertyResponse) :
  Store.convert_all (rows1 ++ rows2) = Some candidates ->
  exists c1 c2,
    candidates = c1 ++ c2 /\
    Store.convert_all rows1 = Some c1 /\ Store.convert_all rows2 = Some c2.
Proof.
  revert candidates. induction rows1 as [|prop rest IH]; intros candidates;
    cbn [app Store.convert_all].
  - intros H. exists [], candidates. auto.
  - destruct (Store.to_response prop) as [c|]; [|discriminate].
    destruct (Store.convert_all (rest ++ rows2)) as [cs|] eqn:Hcs;
      [|discriminate].
    intros H; injection H as <-.
    destruct (IH cs eq_refl) as [c1 [c2 [-> [H1 H2]]]].
    exists (c :: c1), c2. rewrite H1. auto.
Qed.

Lemma Forall2_transfer (P : Db.Property -> Prop) (R : PropertyResponse -> Prop)
    (rows : list Db.Property) (candidates : list PropertyResponse) :
  (forall prop c, P prop -> Store.to_response prop = Some c -> R c) ->
  Forall P rows ->
  Forall2 (fun prop c => Store.to_response prop = Some c) rows candidates ->
  Forall R candidates.
Proof.
  intros HPR HP H2. induction H2 as [|prop c rows cs Hc _ IH]; [constructor|].
  inversion HP; subst. constructor; [eapply HPR; eassumption | apply IH; assumption].
Qed.

Lemma firstn_filter_Forall {A : Type} (f : A -> bool) (n : nat) (l : list A) :
  Forall (fun x => f x = true /\ In x l) (firstn n (filter f l)).
Proof.
  apply Forall_forall. intros x Hx.
  assert (Hin : In x (filter f l)).
  { rewrite <- (firstn_skipn n (filter f l)). apply in_or_app. left. exact Hx. }
  apply filter_In in Hin. tauto.
Qed.

(** The rows both queries can select: not the target, with a building
    area. *)
Lemma selected_rows (f : Db.Property -> bool) (n : nat) :
  Forall (fun prop =>
            f prop = true /\ In prop table /\
            Db.id prop <> id target /\ Db.building_area prop <> None)
    (firstn n
       (filter f
          (filter (fun p => negb (String.eqb (Db.id p) (id target))
                            && Store.is_not_null (Db.building_area p))
             table))).
Proof.
  eapply Forall_impl; [|apply firstn_filter_Forall].
  intros prop [Hf Hin]. apply filter_In in Hin as [Hin Hq].
  apply andb_true_iff in Hq as [Hid Hba].
  split; [exact Hf|]. split; [exact Hin|]. split.
  - apply negb_true_iff, String.eqb_neq in Hid. exact Hid.
  - destruct (Db.building_area prop); [discriminate | discriminate Hba].
Qed.

(** When [get_candidate_properties] returns, it returns at most 50
    candidates; each comes from a row of the table, is not the target and
    has a building area. *)
Theorem candidates_from_table (candidates : list PropertyResponse) :
  Store.get_candidate_properties table target = Some candidates ->
  (List.length candidates <= 50)%nat /\
  Forall (fun c =>
            id c <> id target /\ building_area c <> None /\
            exists prop, In prop table /\ Store.to_response prop = Some c)
    candidates.
Proof.
  unfold Store.get_candidate_properties. cbv zeta.
  set (query := filter _ table).
  set (same := firstn 50 (filter _ query)).
  intros H. apply convert_all_rows in H.
  assert (Hlen_same : (List.length same <= 50)%nat)
    by (unfold same; rewrite length_firstn; lia).
  split.
  - rewrite <- (Forall2_length H).
    destruct (List.length same <? 20)%nat; [|exact Hlen_same].
    rewrite length_app, length_firstn. lia.
  - eapply (Forall2_transfer
              (fun prop => In prop table /\ Db.id prop <> id target /\
                           Db.building_area prop <> None));
      [| |exact H].
    + intros prop c [Hin [Hid Hba]] Hc.
      destruct (to_response_fields prop c Hc) as [Eid [Eba _]].
      rewrite Eid, Eba. split; [exact Hid|]. split; [exact Hba|].
      exists prop. split; assumption.
    + assert (Hsame : Forall (fun prop =>
                 In prop table /\ Db.id prop <> id target /\
                 Db.building_area prop <> None) same).
      { eapply Forall_impl; [|apply selected_rows]. intros prop Hp. apply Hp. }
      destruct (List.length same <? 20)%nat; [|exact Hsame].
      apply Forall_app. split; [exact Hsame|].
      eapply Forall_impl; [|apply selected_rows]. intros prop Hp. apply Hp.
Qed.

(** The candidates are those of the target's county, at most 50, followed
    by those of other counties; parcels of other counties are added only
    when fewer than 20 of the target's county were found, and then up to 50
    candidates in all. *)
Theorem same_county_first (candidates : list PropertyResponse) :
  Store.get_candidate_properties table target = Some candidates ->
  exists same others,
    candidates = same ++ others /\
    Forall (fun c => county_id c = county_id target) same /\
    Forall (fun c => county_id c <> county_id target) others /\
    (20 <= List.length same -> others = [])%nat /\
    (List.length same + List.length others <= 50)%nat.
Proof.
  unfold Store.get_candidate_properties. cbv zeta.
  set (query := filter _ table).
  set (same_rows := firstn 50 (filter _ query)).
  assert (Hlen_same : (List.length same_rows <= 50)%nat)
    by (unfold same_rows; rewrite length_firstn; lia).
  assert (Hsame_rows :
            Forall (fun prop =>
                      Store.column_eq (Db.county_id prop) (county_id target)
                      = true) same_rows).
  { eapply Forall_impl; [|apply firstn_filter_Forall]. intros prop Hp. apply Hp. }
  assert (Hsame : forall cs,
             Store.convert_all same_rows = Some cs ->
             Forall (fun c => county_id c = county_id target) cs /\
             List.length cs = List.length same_rows).
  { intros cs Hcs. apply convert_all_rows in Hcs.
    split; [|symmetry; apply (Forall2_length Hcs)].
    eapply Forall2_transfer; [|exact Hsame_rows|exact Hcs].
    intros prop c Heq Hc.
    destruct (to_response_fields prop c Hc) as [_ [_ Ecounty]].
    cbv beta in Heq. rewrite Ecounty in Heq. apply String.eqb_eq, Heq. }
  destruct (List.length same_rows <? 20)%nat eqn:E.
  - intros H. apply convert_all_app in H as [c1 [c2 [-> [H1 H2]]]].
    destruct (Hsame c1 H1) as [Hc1 Hl1].
    exists c1, c2. split; [reflexivity|]. split; [exact Hc1|].
    apply Nat.ltb_lt in E. apply convert_all_rows in H2.
    split; [|split].
    + eapply (Forall2_transfer
                (fun prop => Store.column_ne (Db.county_id prop)
                               (county_id target) = true));
        [| |exact H2].
      * intros prop c Hne Hc.
        destruct (to_response_fields prop c Hc) as [_ [_ Ecounty]].
        cbv beta in Hne. rewrite Ecounty in Hne.
        apply negb_true_iff, String.eqb_neq in Hne.
        exact Hne.
      * eapply Forall_impl; [|apply firstn_filter_Forall].
        intros prop Hp. apply Hp.
    + intros Hge. lia.
    + rewrite <- (Forall2_length H2), length_firstn, Hl1. lia.
  - intros H. destruct (Hsame candidates H) as [Hc1 Hl1].
    exists candidates, []. rewrite app_nil_r.
    split; [reflexivity|]. split; [exact Hc1|]. split; [constructor|].
    split; [reflexivity|]. simpl. lia.
Qed.

End Candidates.

Section FromTheTable.

Variable great_circle_miles : Q -> Q -> Q -> Q -> Q.
Variable get_candidate_properties : PropertyResponse -> list PropertyResponse.
Variable chat_completion : nat -> completion.
Variable self : t.
Variable target : PropertyResponse.

Lemma scoring_members (candidates : list PropertyResponse)
    (scored : list ComparableProperty) :
  scoring great_circle_miles chat_completion self target candidates
  = Ok scored ->
  Forall (fun c => In (property_ c) candidates) scored.
Proof.
  unfold scoring. destruct (truthy_str (api_key self)); intros H.
  - unfold ai_score_candidates in H.
    pose proof (ai_batches_loop_provenance great_circle_miles chat_completion
                  self target candidates _ [] scored (Forall_nil _) H) as Hp.
    eapply Forall_impl; [|exact Hp]. intros c [Hc|Hc]; apply Hc.
  - pose proof (traditional_loop_provenance great_circle_miles self target
                  candidates candidates [] scored (incl_refl _)
                  (Forall_nil _) H) as Hp.
    eapply Forall_impl; [|exact Hp]. intros c Hc. apply Hc.
Qed.

(** With the candidates read from a table, [find_comparables] never
    returns the target itself nor a parcel without a building area, and
    every result is about one of the candidates read; without a key for the
    language model there are at most 50 results. *)
Theorem find_comparables_over_table (table : list Db.Property)
    (max_results : Z) (results : list ComparableProperty) :
  Store.get_candidate_properties table target
  = Some (get_candidate_properties target) ->
  find_comparables great_circle_miles get_candidate_properties
    chat_completion self target max_results = Ok results ->
  Forall (fun c =>
            In (property_ c) (get_candidate_properties target) /\
            id (property_ c) <> id target /\
            building_area (property_ c) <> None) results /\
  (truthy_str (api_key self) = false -> (List.length results <= 50)%nat).
Proof.
  intros Hstore H.
  destruct (candidates_from_table table target _ Hstore) as [Hlen Hall].
  destruct (find_comparables_scoring great_circle_miles
              get_candidate_properties chat_completion self target
              max_results results H) as [scored [Hs ->]].
  pose proof (scoring_members _ _ Hs) as Hm.
  split.
  - apply slice_to_Forall, sort_reverse_Forall.
    eapply Forall_impl; [|exact Hm]. intros c Hc.
    split; [exact Hc|].
    rewrite Forall_forall in Hall. destruct (Hall _ Hc) as [Hid [Hba _]].
    split; assumption.
  - intros Hkey. unfold scoring in Hs. rewrite Hkey in Hs.
    pose proof (traditional_loop_properties great_circle_miles self target
                  _ [] scored Hs) as Hmap. cbn [map app] in Hmap.
    assert (Hscored : (List.length scored <= 50)%nat).
    { rewrite <- (length_map property_), Hmap.
      eapply Nat.le_trans; [apply filter_length_le | exact Hlen]. }
    destruct (slice_to_is_firstn _ (sort_reverse similarity_score scored)
                max_results) as [n [-> _]].
    rewrite length_firstn.
    rewrite (Permutation_length (sort_reverse_perm _ similarity_score scored)).
    lia.
Qed.

End FromTheTable.

(* ===================================================================== *)
(** * Recommendations and market analysis *)
(* ===================================================================== *)

Section AdviceFacts.

Import Advice.

Variable format_2f : Q -> string.

Lemma slice_to_short {A : Type} (l : list A) (k : Z) :
  (Z.of_nat (List.length l) <= k)%Z -> slice_to l k = l.
Proof.
  intros H. unfold slice_to.
  destruct (0 <=? k)%Z eqn:E; [|apply Z.leb_gt in E; lia].
  apply firstn_all2. lia.
Qed.

(** The deterministic recommendations are two to five; the final cut to
    five never removes any, so for a list of comparables that is not empty
    they end with the three general recommendations, after at most two
    specific ones. *)
Theorem traditional_recommendations_shape (target : PropertyResponse)
    (comparables : list ComparableProperty) :
  let recommendations :=
    traditional_generate_recommendations target comparables in
  (2 <= List.length recommendations <= 5)%nat /\
  (comparables <> [] ->
   exists specific,
     recommendations = specific ++ general_recommendations /\
     (List.length specific <= 2)%nat).
Proof.
  unfold traditional_generate_recommendations.
  destruct comparables as [|c cs]; cbv zeta.
  - split; [simpl; lia | intros H; contradiction].
  - destruct (Qltb _ 0.6); (destruct (distances_of (c :: cs)) as [|d ds];
      [|destruct (Qgtb _ 10)]);
      rewrite slice_to_short by (simpl; lia);
      (split; [simpl; lia | intros _; eexists; split;
                            [reflexivity | simpl; lia]]).
Qed.

Lemma no_distances (comparables : list ComparableProperty) :
  Forall (fun c => truthy_float (distance_miles c) = false) comparables ->
  distances_of comparables = [].
Proof.
  unfold distances_of. induction 1 as [|c cs Hc _ IH]; [reflexivity|].
  cbn [flat_map]. rewrite IH.
  destruct (distance_miles c) as [d|]; [|reflexivity]. rewrite Hc. reflexivity.
Qed.

(** When no comparable of a list that is not empty has a distance other
    than zero, building the summary raises before the service is called:
    [ai_generate_recommendations] returns the deterministic recommendations,
    whatever the service would have answered. *)
Theorem recommendations_without_distances (self : t)
    (chat_completion : Q * Q * Q -> reply) (target : PropertyResponse)
    (comparables : list ComparableProperty) :
  comparables <> [] ->
  Forall (fun c => truthy_float (distance_miles c) = false) comparables ->
  ai_generate_recommendations self chat_completion target comparables
  = map JStr (traditional_generate_recommendations target comparables).
Proof.
  intros Hne Hnone. unfold ai_generate_recommendations, analysis_summary.
  rewrite (no_distances _ Hnone).
  destruct comparables as [|c cs]; [contradiction|].
  destruct (negb (truthy_str (api_key self))); reflexivity.
Qed.

Lemma min_of_Some (l : list Q) : l <> [] -> exists m, min_of l = Some m.
Proof. destruct l; [contradiction | intros _; simpl; eauto]. Qed.

Lemma max_of_Some (l : list Q) : l <> [] -> exists m, max_of l = Some m.
Proof. destruct l; [contradiction | intros _; simpl; eauto]. Qed.

(** The market position is "unknown", with a value range from 0 to 0, when
    no comparable has both an assessed value and a building area (in
    particular when there is no comparable); otherwise it is one of
    "above_market", "below_market" and "at_market". *)
Theorem market_position_known (target : PropertyResponse)
    (comparables : list ComparableProperty) :
  let analysis := traditional_market_analysis format_2f target comparables in
  (comparable_psf_of comparables = [] ->
   member analysis "market_position" = Some (JStr "unknown") /\
   member analysis "value_range" = Some (value_range_of 0 0)) /\
  (comparable_psf_of comparables <> [] ->
   member analysis "market_position" = Some (JStr "above_market") \/
   member analysis "market_position" = Some (JStr "below_market") \/
   member analysis "market_position" = Some (JStr "at_market")).
Proof.
  unfold traditional_market_analysis. split.
  - intros Hnone. destruct comparables as [|c cs]; [split; reflexivity|].
    rewrite Hnone. split; reflexivity.
  - intros Hsome. destruct comparables as [|c cs]; [contradiction|].
    destruct (min_of_Some _ Hsome) as [lo ->].
    destruct (max_of_Some _ Hsome) as [hi ->]. cbv zeta.
    destruct (Qgtb _ _); [left; reflexivity|].
    destruct (Qltb _ _); [right; left; reflexivity | right; right; reflexivity].
Qed.

Lemma sum_from (l : list Q) (a : Q) : fold_left Qplus l a == a + sum l.
Proof.
  unfold sum. revert a. induction l as [|x l IH]; intros a; cbn [fold_left].
  - ring.
  - rewrite (IH (a + x)), (IH (0 + x)). ring.
Qed.

Lemma sum_positive (l : list Q) :
  l <> [] -> Forall (fun x => 0 < x) l -> 0 < sum l.
Proof.
  intros Hne Hall. induction Hall as [|x l Hx Hl IH]; [contradiction|].
  unfold sum. cbn [fold_left]. rewrite sum_from.
  destruct l as [|y l].
  - unfold sum. simpl. lra.
  - assert (0 < sum (y :: l)) by (apply IH; discriminate). lra.
Qed.

(** A target without an assessed value or without a building area is
    reported "below_market" when at least one comparable has both an
    assessed value and a building area and every comparable that has both
    has a positive price per square foot; when no comparable has both, the
    position is "unknown". *)
Theorem target_without_price_is_below_market (target : PropertyResponse)
    (comparables : list ComparableProperty) :
  price_per_square_foot target = None ->
  Forall (fun psf => 0 < psf) (comparable_psf_of comparables) ->
  (comparable_psf_of comparables <> [] ->
   member (traditional_market_analysis format_2f target comparables)
     "market_position"
   = Some (JStr "below_market")) /\
  (comparable_psf_of comparables = [] ->
   member (traditional_market_analysis format_2f target comparables)
     "market_position"
   = Some (JStr "unknown")).
Proof.
  intros Hnone Hpos. unfold traditional_market_analysis. split.
  - intros Hsome.
    destruct comparables as [|c cs]; [contradiction|]. rewrite Hnone.
    destruct (min_of_Some _ Hsome) as [lo ->].
    destruct (max_of_Some _ Hsome) as [hi ->]. cbv zeta.
    set (psf := comparable_psf_of (c :: cs)) in *.
    assert (Havg : 0 < sum psf / inject_Z (Z.of_nat (List.length psf))).
    { apply Qlt_shift_div_l.
      - apply inject_Z_pos. destruct psf; [contradiction | simpl; lia].
      - rewrite Qmult_0_l. apply sum_positive; assumption. }
    assert (Habove :
              Qgtb 0 (sum psf / inject_Z (Z.of_nat (List.length psf)) * 1.1)
              = false).
    { apply Qgtb_false. lra. }
    assert (Hbelow :
              Qltb 0 (sum psf / inject_Z (Z.of_nat (List.length psf)) * 0.9)
              = true).
    { unfold Qltb. apply negb_true_iff.
      destruct (Qle_bool _ 0) eqn:E; [|reflexivity].
      apply Qle_bool_iff in E. lra. }
    rewrite Habove, Hbelow. reflexivity.
  - intros Hempty. destruct comparables as [|c cs]; [reflexivity|].
    rewrite Hempty. reflexivity.
Qed.

Lemma fold_min_le (l : list Q) (a : Q) : fold_left Qmin l a <= a.
Proof.
  revert a. induction l as [|x l IH]; intros a; cbn [fold_left].
  - apply Qle_refl.
  - eapply Qle_trans; [apply IH | apply Q.le_min_l].
Qed.

Lemma fold_max_ge (l : list Q) (a : Q) : a <= fold_left Qmax l a.
Proof.
  revert a. induction l as [|x l IH]; intros a; cbn [fold_left].
  - apply Qle_refl.
  - eapply Qle_trans; [apply Q.le_max_l | apply IH].
Qed.

Lemma min_le_max (l : list Q) (lo hi : Q) :
  min_of l = Some lo -> max_of l = Some hi -> lo <= hi.
Proof.
  destruct l as [|x l]; [discriminate|]. simpl.
  intros H1 H2; injection H1 as <-; injection H2 as <-.
  eapply Qle_trans; [apply fold_min_le | apply fold_max_ge].
Qed.

Lemma Qfloor_quot (n : Z) (d : positive) : Qfloor (n # d) = (n / Z.pos d)%Z.
Proof. reflexivity. Qed.

(** [int] of a float is monotone. *)
Lemma int_of_float_monotone (x y : Q) :
  x <= y -> (int_of_float x <= int_of_float y)%Z.
Proof.
  intros Hle. unfold int_of_float.
  destruct x as [a b], y as [c d]. cbn [Qnum Qden].
  assert (Hab : (a * Z.pos d <= c * Z.pos b)%Z) by exact Hle.
  destruct (Z_lt_le_dec a 0) as [Ha|Ha], (Z_lt_le_dec c 0) as [Hc|Hc].
  - assert (Eneg : forall n m, (n < 0)%Z ->
               Z.quot n (Z.pos m) = (- Qfloor (- n # m))%Z).
    { intros n m Hn. rewrite Qfloor_quot.
      rewrite <- (Z.quot_div_nonneg (- n)) by lia.
      rewrite Z.quot_opp_l by discriminate. lia. }
    rewrite (Eneg a b Ha), (Eneg c d Hc).
    apply Z.opp_le_mono. rewrite !Z.opp_involutive.
    apply Qfloor_resp_le. unfold Qle. cbn [Qnum Qden]. lia.
  - apply Z.le_trans with 0%Z.
    + apply Z.quot_le_upper_bound; lia.
    + apply Z.quot_pos; lia.
  - exfalso. nia.
  - rewrite !Z.quot_div_nonneg by lia.
    rewrite <- !Qfloor_quot. apply Qfloor_resp_le. exact Hle.
Qed.

(** For a target with a positive building area and comparables of which at
    least one has an assessed value and a building area, the value range of
    the analysis is ordered: its minimum is at most its maximum. *)
Theorem value_range_ordered (target : PropertyResponse) (area : Q)
    (comparables : list ComparableProperty) :
  building_area target = Some area -> 0 < area ->
  comparable_psf_of comparables <> [] ->
  exists lo hi,
    member (traditional_market_analysis format_2f target comparables)
      "value_range" = Some (value_range_of lo hi) /\
    (lo <= hi)%Z.
Proof.
  intros Harea Hpos Hsome. unfold traditional_market_analysis.
  destruct comparables as [|c cs]; [contradiction|].
  destruct (min_of_Some _ Hsome) as [lo Hlo].
  destruct (max_of_Some _ Hsome) as [hi Hhi].
  rewrite Hlo, Hhi, Harea. cbv zeta.
  assert (Htruthy : truthy_float (Some area) = true).
  { apply truthy_float_Some. intros E. rewrite E in Hpos.
    apply (Qlt_irrefl 0 Hpos). }
  rewrite Htruthy.
  do 2 eexists. split; [reflexivity|].
  apply int_of_float_monotone.
  apply Qmult_le_compat_r; [apply (min_le_max _ _ _ Hlo Hhi) | lra].
Qed.

End AdviceFacts.

(* ===================================================================== *)
(** * The further properties at concrete cases *)
(* ===================================================================== *)

Lemma zoning_ignores_case_witness :
  calculate_zoning_similarity chicago_target dallas_candidate
  = calculate_zoning_similarity lower_case_candidate dallas_candidate /\
  calculate_zoning_similarity chicago_target lower_case_candidate = 1.0.
Proof.
  destruct (zoning_ignores_case chicago_target lower_case_candidate
              dallas_candidate "M-1" "m-1" eq_refl eq_refl eq_refl)
    as [Hsame Hone].
  split; [exact Hsame | apply Hone; discriminate].
Defined.

Lemma scorers_in_unit_witness :
  in_unit (calculate_size_similarity chicago_target chicago_candidate).
Proof.
  destruct (scorers_in_unit chicago_target chicago_candidate)
    as [_ [_ [_ [_ [_ Hsize]]]]].
  apply Hsize; intros a Ha; injection Ha as <-; discriminate.
Defined.

Lemma age_score_monotone_witness :
  exists near_score far_score,
    calculate_age_similarity (init "") chicago_target chicago_candidate
    = Ok near_score /\
    calculate_age_similarity (init "") chicago_target dallas_candidate
    = Ok far_score /\
    far_score <= near_score.
Proof.
  apply (age_score_monotone (init "") chicago_target chicago_candidate
           dallas_candidate 2000 2005 1985);
    try (split; [reflexivity | discriminate]).
  - reflexivity.
  - discriminate.
Defined.

Lemma zero_tolerance_raises_witness :
  traditional_score_candidates no_distance zero_tolerance_agent chicago_target
    (store chicago_target)
  = Raise ZeroDivisionError.
Proof.
  apply (zero_tolerance_raises no_distance zero_tolerance_agent chicago_target
           2000 (store chicago_target) residential_candidate 2001).
  - reflexivity.
  - split; [reflexivity | discriminate].
  - split; [reflexivity | discriminate].
  - right. right. left. reflexivity.
  - discriminate.
Defined.

Lemma similarity_in_unit_witness :
  exists score breakdown confidence,
    calculate_similarity (init "") chicago_target chicago_candidate
    = Ok (score, breakdown, confidence) /\
    in_unit score.
Proof.
  apply (similarity_in_unit (init "") chicago_target chicago_candidate).
  - repeat split; try discriminate; reflexivity.
  - intros a Ha. injection Ha as <-. discriminate.
  - intros a Ha. injection Ha as <-. discriminate.
Defined.

Lemma distance_estimate_follows_location_witness :
  calculate_distance no_distance chicago_target residential_candidate = 25.0 /\
  calculate_distance no_distance residential_candidate chicago_target = 25.0.
Proof.
  destruct (distance_estimate_follows_location no_distance chicago_target
              residential_candidate eq_refl) as [_ Hsym].
  split; [reflexivity | exact Hsym].
Defined.

Lemma traditional_keeps_qualifying_in_order_witness :
  exists l,
    traditional_score_candidates no_distance (init "") chicago_target
      (store chicago_target) = Ok l /\
    map property_ l
    = filter (qualifies (init "") chicago_target) (store chicago_target).
Proof.
  eexists. split; [vm_compute; reflexivity|].
  apply (traditional_keeps_qualifying_in_order no_distance (init "")
           chicago_target). vm_compute. reflexivity.
Defined.

Lemma traditional_results_explained_witness :
  exists l,
    traditional_score_candidates no_distance (init "") chicago_target
      (store chicago_target) = Ok l /\
    Forall (fun c => similarity_score c
                     == weighted_sum (similarity_factors c)
                          (factor_weights SimilarityFactors_default)) l.
Proof.
  eexists. split; [vm_compute; reflexivity|].
  eapply Forall_impl;
    [|apply (traditional_results_explained no_distance (init "")
               chicago_target (store chicago_target));
      vm_compute; reflexivity].
  intros c [_ Hc]. exact Hc.
Defined.

Lemma ai_results_explained_witness :
  exists l,
    ai_score_candidates no_distance approves (init "sk") chicago_target
      (store chicago_target) = Ok l /\
    Forall (fun c =>
              scored_by_service no_distance approves (init "sk")
                chicago_target (store chicago_target) c \/
              scored_deterministically no_distance (init "sk") chicago_target
                (store chicago_target) c) l.
Proof.
  eexists. split; [vm_compute; reflexivity|].
  apply (ai_results_explained no_distance approves (init "sk")
           chicago_target (store chicago_target)).
  vm_compute. reflexivity.
Defined.

Lemma results_are_the_best_witness :
  exists results,
    find_comparables no_distance store approves (init "") chicago_target 2
    = Ok results /\
    List.length results = 2%nat.
Proof.
  eexists. split; [vm_compute; reflexivity|].
  destruct (results_are_the_best no_distance store approves (init "")
              chicago_target 2 _ eq_refl)
    as [scored [left_out [Hs [_ [_ [Hlen _]]]]]].
  vm_compute in Hs. injection Hs as <-. reflexivity.
Defined.

Lemma approved_then_ill_typed_duplicates_witness :
  exists l,
    ai_score_candidates no_distance approves_then_breaks (init "sk")
      chicago_target (store chicago_target) = Ok l /\
    (2 <= List.length (about "c1" l))%nat.
Proof.
  apply (approved_then_ill_typed_duplicates no_distance approves_then_breaks
           (init "sk") chicago_target (store chicago_target)
           chicago_candidate 0.9 0.95 [IllTyped]).
  - discriminate.
  - unfold batch_size. simpl. lia.
  - reflexivity.
  - left. reflexivity.
  - reflexivity.
  - reflexivity.
  - reflexivity.
Defined.

Lemma candidates_from_table_witness :
  (List.length (table_candidates chicago_target) <= 50)%nat /\
  Forall (fun c => id c <> id chicago_target)
    (table_candidates chicago_target).
Proof.
  destruct (candidates_from_table example_table chicago_target
              (table_candidates chicago_target) eq_refl) as [Hlen Hall].
  split; [exact Hlen|].
  eapply Forall_impl; [|exact Hall]. intros c Hc. apply Hc.
Defined.

Lemma same_county_first_witness :
  exists same others,
    table_candidates chicago_target = same ++ others /\
    Forall (fun c => county_id c = "cook"%string) same /\
    Forall (fun c => county_id c <> "cook"%string) others.
Proof.
  destruct (same_county_first example_table chicago_target
              (table_candidates chicago_target) eq_refl)
    as [same [others [Happ [Hsame [Hothers _]]]]].
  exists same, others. split; [exact Happ|]. split; assumption.
Defined.

Lemma find_comparables_over_table_witness :
  exists results,
    find_comparables no_distance table_candidates always_fails (init "")
      chicago_target max_results_default = Ok results /\
    Forall (fun c => id (property_ c) <> id chicago_target) results.
Proof.
  eexists. split; [vm_compute; reflexivity|].
  destruct (find_comparables_over_table no_distance table_candidates
              always_fails (init "") chicago_target example_table
              max_results_default _ eq_refl eq_refl) as [Hall _].
  eapply Forall_impl; [|exact Hall]. intros c Hc. apply Hc.
Defined.

Lemma traditional_recommendations_shape_witness :
  exists specific,
    Advice.traditional_generate_recommendations chicago_target
      nearby_comparables
    = specific ++ Advice.general_recommendations.
Proof.
  destruct (traditional_recommendations_shape chicago_target
              nearby_comparables) as [_ Hshape].
  destruct Hshape as [specific [Hs _]]; [discriminate|].
  exists specific. exact Hs.
Defined.

Lemma recommendations_without_distances_witness :
  Advice.ai_generate_recommendations (init "sk") answers_array chicago_target
    colocated_comparables
  = map Advice.JStr
      (Advice.traditional_generate_recommendations chicago_target
         colocated_comparables).
Proof.
  apply (recommendations_without_distances (init "sk") answers_array
           chicago_target colocated_comparables).
  - discriminate.
  - repeat constructor.
Defined.

Lemma market_position_known_witness :
  Advice.member
    (Advice.traditional_market_analysis two_decimals chicago_target [])
    "market_position"
  = Some (Advice.JStr "unknown").
Proof.
  destruct (market_position_known two_decimals chicago_target [])
    as [Hunknown _].
  apply Hunknown. reflexivity.
Defined.

Lemma target_without_price_is_below_market_witness :
  Advice.member
    (Advice.traditional_market_analysis two_decimals unassessed_target
       nearby_comparables)
    "market_position"
  = Some (Advice.JStr "below_market").
Proof.
  destruct (target_without_price_is_below_market two_decimals
              unassessed_target nearby_comparables) as [Hbelow _].
  - reflexivity.
  - repeat constructor.
  - apply Hbelow. discriminate.
Defined.

Lemma value_range_ordered_witness :
  exists lo hi,
    Advice.member
      (Advice.traditional_market_analysis two_decimals chicago_target
         nearby_comparables)
      "value_range"
    = Some (Advice.value_range_of lo hi) /\
    (lo <= hi)%Z.
Proof.
  apply (value_range_ordered two_decimals chicago_target 50000
           nearby_comparables).
  - reflexivity.
  - reflexivity.
  - discriminate.
Defined.

(* ===================================================================== *)
(** * Symmetry, bounds of the results, and what is passed on unchecked *)
(* ===================================================================== *)

Section MoreResults.

Variable great_circle_miles : Q -> Q -> Q -> Q -> Q.
Variable get_candidate_properties : PropertyResponse -> list PropertyResponse.
Variable chat_completion : nat -> completion.
Variable self : t.
Variable target : PropertyResponse.

(** The location, zoning, age, assessed-value and sale-price scorers give
    the same score whichever of the two parcels is the target. *)
Theorem factor_scorers_symmetric (a b : PropertyResponse) :
  calculate_location_similarity a b = calculate_location_similarity b a /\
  calculate_zoning_similarity a b = calculate_zoning_similarity b a /\
  calculate_age_similarity self a b = calculate_age_similarity self b a /\
  calculate_value_similarity self a b == calculate_value_similarity self b a /\
  calculate_sale_price_similarity a b == calculate_sale_price_similarity b a.
Proof.
  split; [apply location_symmetric|].
  split; [apply zoning_symmetric|].
  split; [apply age_symmetric|].
  apply price_scorers_symmetric.
Qed.

Lemma similarity_bounds (candidate : PropertyResponse)
    (score : Q) (breakdown : dict Q) (confidence : Q) :
  sound_configuration (factors self) ->
  no_negative_area target -> no_negative_area candidate ->
  calculate_similarity self target candidate = Ok (score, breakdown, confidence) ->
  in_unit score /\ confidence <= 1.
Proof.
  intros [Hw1 [Hw2 [Hw3 [Hw4 [Hw5 [Hw6 [Hsum [Hage Hval]]]]]]]] Ht Hc.
  unfold calculate_similarity. intros H.
  apply bind_Ok in H as [a [Ha H]]. injection H as <- _ <-. split.
  - apply weighted_mean_in_unit; try assumption.
    + apply location_in_unit.
    + apply size_in_unit; assumption.
    + apply (age_in_unit self target candidate a Hage Ha).
    + apply zoning_in_unit.
    + apply value_in_unit, Hval.
    + apply sale_price_in_unit.
  - rewrite confidence_formula. apply Q.le_min_l.
Qed.

(** Without a key for the language model, under a sound configuration and
    with no negative building area in the target or the candidates,
    [find_comparables] returns, and every result has a similarity above 0.3
    and at most 1 and a confidence of at most 1. *)
Theorem deterministic_results_bounded (max_results : Z) :
  truthy_str (api_key self) = false ->
  sound_configuration (factors self) ->
  no_negative_area target ->
  Forall no_negative_area (get_candidate_properties target) ->
  exists results,
    find_comparables great_circle_miles get_candidate_properties
      chat_completion self target max_results = Ok results /\
    Forall (fun c =>
              0.3 < similarity_score c /\ similarity_score c <= 1 /\
              confidence_score c <= 1) results.
Proof.
  intros Hkey Hconf Ht Hcs.
  assert (Htol : age_tolerance_years (factors self) <> 0%Z).
  { destruct Hconf as [_ [_ [_ [_ [_ [_ [_ [Hage _]]]]]]]]. lia. }
  destruct (find_comparables_returns great_circle_miles
              get_candidate_properties chat_completion self target
              max_results Htol) as [results Hr].
  exists results. split; [exact Hr|].
  destruct (find_comparables_scoring great_circle_miles
              get_candidate_properties chat_completion self target
              max_results results Hr) as [scored [Hs ->]].
  unfold scoring in Hs. rewrite Hkey in Hs.
  apply slice_to_Forall, sort_reverse_Forall.
  pose proof (traditional_loop_provenance great_circle_miles self target
                _ _ [] scored (incl_refl _) (Forall_nil _) Hs) as Hp.
  eapply Forall_impl; [|exact Hp].
  intros c [Hin [_ [Hsim [Hgt _]]]].
  rewrite Forall_forall in Hcs.
  destruct (similarity_bounds _ _ _ _ Hconf Ht (Hcs _ Hin) Hsim) as [[_ Hle] Hc].
  split; [exact Hgt|]. split; assumption.
Qed.

(** A single candidate approved by the service: the comparable returned
    carries the similarity and the confidence of the reply as they are,
    whatever their size, with the breakdown and the distance computed
    locally. *)
Theorem service_scores_pass_unchecked (candidate : PropertyResponse)
    (similarity confidence : Q) :
  age_tolerance_years (factors self) <> 0%Z ->
  chat_completion 0%nat
  = Parsed [ScoreData (Some (id candidate)) similarity confidence] ->
  0.3 < similarity ->
  exists breakdown,
    calculate_detailed_similarity_factors self target candidate
    = Ok breakdown /\
    ai_score_candidates great_circle_miles chat_completion self target
      [candidate]
    = Ok [ {| property_ := candidate;
              similarity_score := similarity;
              distance_miles :=
                Some (calculate_distance great_circle_miles target candidate);
              similarity_factors := breakdown;
              confidence_score := confidence |} ].
Proof.
  intros Htol Hchat Hsim.
  destruct (detailed_factors_returns self target candidate Htol) as [fs Hfs].
  exists fs. split; [exact Hfs|].
  unfold ai_score_candidates.
  change (range_step (List.length [candidate]) batch_size) with [0%nat].
  cbn [ai_batches_loop]. unfold ai_score_batch.
  change (0 / batch_size)%nat with 0%nat. rewrite Hchat.
  change (slice [candidate] 0 (0 + batch_size)) with [candidate].
  cbn [ai_scores_loop find_candidate find].
  rewrite String.eqb_refl.
  apply Qgtb_true in Hsim. rewrite Hsim, Hfs. reflexivity.
Qed.

End MoreResults.

Section AnalysisShape.

Import Advice.

Variable format_2f : Q -> string.

Lemma traditional_analysis_keys (target : PropertyResponse)
    (comparables : list ComparableProperty) :
  exists members,
    traditional_market_analysis format_2f target comparables = JObj members /\
    keys members
    = [ "market_position"; "value_range"; "market_trends"; "key_insights";
        "recommendations" ]%string.
Proof.
  unfold traditional_market_analysis.
  destruct comparables as [|c cs]; [eexists; split; reflexivity|].
  destruct (min_of _) as [lo|]; [|eexists; split; reflexivity].
  destruct (max_of _) as [hi|]; eexists; split; reflexivity.
Qed.

(** The deterministic market analysis is always an object with the keys
    market_position, value_range, market_trends, key_insights and
    recommendations, and so is what [ai_generate_market_insights] returns
    when the agent has no key or the call to the service fails. *)
Theorem market_analysis_shape (self : t) (chat_completion : reply)
    (target : PropertyResponse) (comparables : list ComparableProperty) :
  truthy_str (api_key self) = false \/
  chat_completion = ReplyRaises \/ chat_completion = ReplyNotJSON ->
  ai_generate_market_insights format_2f self chat_completion target comparables
  = traditional_market_analysis format_2f target comparables /\
  exists members,
    traditional_market_analysis format_2f target comparables = JObj members /\
    keys members
    = [ "market_position"; "value_range"; "market_trends"; "key_insights";
        "recommendations" ]%string.
Proof.
  intros H. split; [|apply traditional_analysis_keys].
  unfold ai_generate_market_insights.
  destruct H as [H|[H|H]]; rewrite H; [reflexivity| |];
    destruct (negb _); reflexivity.
Qed.

End AnalysisShape.

Lemma deterministic_results_bounded_witness :
  exists results,
    find_comparables no_distance store always_fails (init "") chicago_target
      max_results_default = Ok results /\
    Forall (fun c => 0.3 < similarity_score c /\ similarity_score c <= 1 /\
                     confidence_score c <= 1) results.
Proof.
  apply (deterministic_results_bounded no_distance store always_fails (init "")
           chicago_target max_results_default).
  - reflexivity.
  - repeat split; try discriminate; reflexivity.
  - intros a Ha. injection Ha as <-. discriminate.
  - repeat constructor; intros a Ha; injection Ha as <-; discriminate.
Defined.

Lemma service_scores_pass_unchecked_witness :
  exists l,
    ai_score_candidates no_distance overrates (init "sk") chicago_target
      [chicago_candidate] = Ok l /\
    map similarity_score l = [7] /\ map confidence_score l = [-3].
Proof.
  destruct (service_scores_pass_unchecked no_distance overrates (init "sk")
              chicago_target chicago_candidate 7 (-3))
    as [breakdown [_ H]]; [discriminate | reflexivity | reflexivity |].
  eexists. split; [exact H|]. split; reflexivity.
Defined.

Lemma market_analysis_shape_witness :
  Advice.ai_generate_market_insights two_decimals (init "")
    (Advice.ReplyJSON Advice.JNull) chicago_target nearby_comparables
  = Advice.traditional_market_analysis two_decimals chicago_target
      nearby_comparables.
Proof.
  apply (market_analysis_shape two_decimals (init "")
           (Advice.ReplyJSON Advice.JNull) chicago_target nearby_comparables).
  left. reflexivity.
Defined.
